(** * SimpleDataServer: the document store and the ingestion pipeline

    A shallow embedding of [src/storage/file_manager.cpp],
    [src/handlers/api_handler.cpp] and the request callbacks of
    [src/server/data_server.cpp], with the properties the specification
    states about them.

    - [std::string] is [string]; [size()] is an [N] (no wrap-around can
      occur: a string never holds 2^64 bytes).
    - The file system the C++ standard library talks to is an explicit
      state: a finite map from resolved paths to nodes, together with the
      set of operations the operating system refuses.
    - nlohmann::json values are an inductive type; the library's
      [parse], [dump] and [merge_patch] are parameters of the development. *)

From Stdlib Require Import Ascii String NArith ZArith Bool List Lia DecimalString.
From stdpp Require Import base option list gmap sets strings sorting.

Local Open Scope N_scope.

(** ** [std::string] primitives used by the sources *)

Definition empty (s : string) : bool :=
  match s with
  | EmptyString => true
  | String _ _ => false
  end.

Definition size (s : string) : N := N.of_nat (String.length s).

Definition push_back (s : string) (c : ascii) : string :=
  s +:+ String c "".

(** [back] of an empty string is undefined behaviour in C++; every call in
    the sources is guarded by [!result.empty()], and the model answers [None]
    there. *)
Fixpoint back (s : string) : option ascii :=
  match s with
  | EmptyString => None
  | String c EmptyString => Some c
  | String _ s' => back s'
  end.

Fixpoint pop_back (s : string) : string :=
  match s with
  | EmptyString => EmptyString
  | String _ EmptyString => EmptyString
  | String c s' => String c (pop_back s')
  end.

(** [s.substr(pos)]: the suffix of [s] that starts at index [pos]. *)
Definition substr (s : string) (pos : N) : string :=
  String.substring (N.to_nat pos) (String.length s - N.to_nat pos) s.

Definition chars (s : string) : list ascii := String.list_ascii_of_string s.

(** Characters that a literal would need escapes for. *)
Definition quote : ascii := "034".
Definition backslash : ascii := "092".
Definition NUL : ascii := "000".

(** A string of [n] copies of [c], for bodies and documents of a given size. *)
Definition fill (n : N) (c : ascii) : string := N.iter n (String c) "".

Arguments fill : simpl never.

(** ** Constants of the sources *)

Definition JSON_EXTENSION : string := ".json".
Definition MAX_JSON_SIZE_BYTES : N := 1024 * 1024.
Definition MAX_REQUEST_SIZE : N := 1024 * 1024.

(** ** Filename sanitization ([file_manager.cpp]) *)

(** [std::isalnum] on [unsigned char]. The program never calls [setlocale],
    so the classification of the "C" locale applies: digits and the 52
    unaccented letters. *)
Definition isalnum (c : ascii) : bool :=
  let n := N_of_ascii c in
  (48 <=? n) && (n <=? 57) || (65 <=? n) && (n <=? 90) || (97 <=? n) && (n <=? 122).

Definition is_valid_json_character (c : ascii) : bool :=
  isalnum c || Ascii.eqb c "_" || Ascii.eqb c "-".

(** The body of the [for (char c : filename)] loop, on the mutable [result]. *)
Definition sanitize_step (result : string) (c : ascii) : string :=
  if Ascii.eqb c "/" || Ascii.eqb c backslash || Ascii.eqb c NUL then result
  else if Ascii.eqb c "." && negb (empty result) && bool_decide (back result = Some "."%char)
  then result
  else if Ascii.eqb c "." then push_back result "_"
  else if is_valid_json_character c then push_back result c
  else result.

(** The trailing [while] loop; each iteration removes one character, so
    [size result] iterations are enough. *)
Definition strip_cond (result : string) : bool :=
  negb (empty result) &&
  (bool_decide (back result = Some "_"%char) || bool_decide (back result = Some "-"%char)).

Fixpoint strip_trailing (fuel : nat) (result : string) : string :=
  match fuel with
  | O => result
  | S fuel' =>
      if strip_cond result then strip_trailing fuel' (pop_back result) else result
  end.

Definition sanitize_filename (filename : string) : string :=
  let result := fold_left sanitize_step (chars filename) "" in
  strip_trailing (String.length result) result.

Definition has_json_extension (filename : string) : bool :=
  (size JSON_EXTENSION <=? size filename) &&
  bool_decide (substr filename (size filename - size JSON_EXTENSION) = JSON_EXTENSION).

Definition ensure_json_extension (filename : string) : string :=
  if has_json_extension filename then filename else filename +:+ JSON_EXTENSION.

(** ** The reference transform of the specification *)

Module Reference.

(** Written from the specification's sentence on sanitization, not from the
    code; the output so far is kept most recent character first. *)
Fixpoint scan (out_rev : list ascii) (input : list ascii) : list ascii :=
  match input with
  | [] => out_rev
  | c :: rest =>
      if bool_decide (c = "/"%char ∨ c = backslash ∨ c = NUL) then scan out_rev rest
      else if bool_decide (c = "."%char) then
        match out_rev with
        | last_out :: _ =>
            if bool_decide (last_out = "."%char) then scan out_rev rest
            else scan ("_"%char :: out_rev) rest
        | [] => scan ("_"%char :: out_rev) rest
        end
      else if isalnum c || bool_decide (c = "_"%char) || bool_decide (c = "-"%char)
      then scan (c :: out_rev) rest
      else scan out_rev rest
  end.

Fixpoint strip (out_rev : list ascii) : list ascii :=
  match out_rev with
  | c :: rest =>
      if bool_decide (c = "_"%char ∨ c = "-"%char) then strip rest else out_rev
  | [] => []
  end.

Definition sanitize (filename : string) : string :=
  String.string_of_list_ascii (rev (strip (scan [] (chars filename)))).

End Reference.

(** The characters of a string, most recent first: the view in which
    [push_back], [back] and [pop_back] work at the head. *)
Definition rchars (s : string) : list ascii := rev (chars s).

(** ** The file system behind [std::filesystem] and the file streams

    A resolved path is the list of directory entry names leading from the
    directory in which relative paths are looked up (the process never changes
    it) to the node; the empty list is that directory itself. *)

Inductive node :=
| RegularFile (content : string)
| Directory
| Other.

(** Operations the operating system may refuse on a node (permissions, a
    full disk, a failing device): the sources turn each into [IoError]. *)
Inductive io_op :=
| OpenForWriting
| Writing
| OpenForReading
| Enumerating.

#[global] Instance io_op_eq_dec : EqDecision io_op.
Proof. solve_decision. Defined.

#[global] Instance io_op_countable : Countable io_op.
Proof.
  refine (inj_countable'
    (λ o, match o with
          | OpenForWriting => 0%nat | Writing => 1%nat
          | OpenForReading => 2%nat | Enumerating => 3%nat
          end)
    (λ n, match n with
          | 0%nat => OpenForWriting | 1%nat => Writing
          | 2%nat => OpenForReading | _ => Enumerating
          end) _).
  by intros [].
Defined.

Record filesystem := Filesystem {
  nodes : gmap (list string) node;
  refused : gset (io_op * list string)
}.

(** The components of a path string, separated by ['/']. *)
Fixpoint split_slash (p : string) : list string :=
  match p with
  | EmptyString => [""]
  | String c p' =>
      if Ascii.eqb c "/" then "" :: split_slash p'
      else match split_slash p' with
           | first :: others => String c first :: others
           | [] => [String c ""]
           end
  end.

Definition node_at (fs : filesystem) (q : list string) : option node :=
  match q with
  | [] => Some Directory
  | _ :: _ => nodes fs !! q
  end.

Definition is_directory_at (fs : filesystem) (q : list string) : bool :=
  match node_at fs q with
  | Some Directory => true
  | _ => false
  end.

(** One step of path resolution from directory [cur]. *)
Definition enter (cur : list string) (name : string) : list string :=
  if bool_decide (name = "" ∨ name = ".") then cur
  else if bool_decide (name = "..") then removelast cur
  else cur ++ [name].

(** Every component is looked up in a directory: resolution fails as soon as
    the node reached so far is not one. The last component need not exist. *)
Fixpoint walk (fs : filesystem) (cur : list string) (names : list string)
  : option (list string) :=
  match names with
  | [] => Some cur
  | name :: rest =>
      if is_directory_at fs cur then walk fs (enter cur name) rest else None
  end.

Definition resolve (fs : filesystem) (p : string) : option (list string) :=
  if empty p then None else walk fs [] (split_slash p).

(** [std::filesystem::exists] and [std::filesystem::is_directory]. *)
Definition fs_exists (fs : filesystem) (p : string) : bool :=
  match resolve fs p with
  | Some q => bool_decide (is_Some (node_at fs q))
  | None => false
  end.

Definition fs_is_directory (fs : filesystem) (p : string) : bool :=
  match resolve fs p with
  | Some q => is_directory_at fs q
  | None => false
  end.

Definition set_node (q : list string) (n : node) (fs : filesystem) : filesystem :=
  {| nodes := <[q := n]> (nodes fs); refused := refused fs |}.

(** [std::ofstream file(path, std::ios::binary)]: the file is created or
    truncated; [None] is [!file.is_open()]. *)
Definition ofstream_open (fs : filesystem) (p : string)
  : option (list string * filesystem) :=
  match resolve fs p with
  | Some q =>
      if bool_decide ((OpenForWriting, q) ∈ refused fs) then None
      else match node_at fs q with
           | Some (RegularFile _) | None => Some (q, set_node q (RegularFile "") fs)
           | Some Directory | Some Other => None
           end
  | None => None
  end.

(** [file << s] followed by [file.fail()]: the flag and the file system left. *)
Definition ofstream_write (fs : filesystem) (file : list string) (s : string)
  : bool * filesystem :=
  if bool_decide ((Writing, file) ∈ refused fs) then (true, fs)
  else (false, set_node file (RegularFile s) fs).

(** [std::ifstream file(path, std::ios::binary)] and the read of its whole
    content through [std::istreambuf_iterator]; [None] is [!file.is_open()]. *)
Definition ifstream_open (fs : filesystem) (p : string) : option string :=
  match resolve fs p with
  | Some q =>
      if bool_decide ((OpenForReading, q) ∈ refused fs) then None
      else match node_at fs q with
           | Some (RegularFile content) => Some content
           | _ => None
           end
  | None => None
  end.

Definition child_name (dir q : list string) : option string :=
  match last q with
  | Some name => if bool_decide (q = dir ++ [name]) then Some name else None
  | None => None
  end.

(** [std::filesystem::directory_iterator]: the entries of a directory, in
    the order the operating system happens to give them; [None] is a thrown
    [filesystem_error]. *)
Definition directory_iterator (fs : filesystem) (p : string)
  : option (list (string * node)) :=
  match resolve fs p with
  | Some q =>
      if is_directory_at fs q && negb (bool_decide ((Enumerating, q) ∈ refused fs))
      then Some (omap (λ e : list string * node,
                         (λ name, (name, e.2)) <$> child_name q e.1)
                      (map_to_list (nodes fs)))
      else None
  | None => None
  end.

Definition is_regular_file (n : node) : bool :=
  match n with
  | RegularFile _ => true
  | _ => false
  end.

(** [std::sort(files.begin(), files.end())]: ascending for [operator<] of
    [std::string], which compares bytes as unsigned values. *)
Definition std_sort (files : list string) : list string :=
  merge_sort String.le files.

(** ** nlohmann::json

    The value kinds of [nlohmann::json]; [F] is the type of the
    floating-point numbers it stores. An object keeps one value per key. *)

#[local] Set Warnings "-register-all".

Inductive json (F : Type) : Type :=
| JNull
| JBoolean (b : bool)
| JInteger (z : Z)
| JUnsigned (n : N)
| JFloat (f : F)
| JString (s : string)
| JArray (elements : list (json F))
| JObject (members : list (string * json F)).

Arguments JNull {F}.
Arguments JBoolean {F} b.
Arguments JInteger {F} z.
Arguments JUnsigned {F} n.
Arguments JFloat {F} f.
Arguments JString {F} s.
Arguments JArray {F} elements.
Arguments JObject {F} members.

(** The exceptions the sources distinguish in their [catch] clauses:
    [nlohmann::json::parse_error], and any other [std::exception]. *)
Inductive exception :=
| parse_error (what : string)
| std_exception (what : string).

(** Sequencing of calls that may throw: the first exception ends the block. *)
Notation "'try' x ← e ; k" :=
  (match e with
   | inl thrown => inl thrown
   | inr x => k
   end)
  (at level 10, x name, e at level 100, k at level 200, only parsing).

Abbreviation returns := inr (only parsing).

(** The library functions the sources call and whose code is not theirs:
    [json::parse] (throwing), [dump()] ([None] when it throws a
    [json::exception]), [merge_patch], and the text of a [type_error]. *)
Class JsonLibrary (F : Type) := {
  parse : string → exception + json F;
  dump : json F → option string;
  merge_patch : json F → json F → json F;
  type_error_what : json F → string
}.

Fixpoint find_member {A : Type} (key : string) (members : list (string * A)) : option A :=
  match members with
  | [] => None
  | (k, v) :: others => if bool_decide (k = key) then Some v else find_member key others
  end.

(** The members are those of a [std::map]: in ascending key order. *)
Fixpoint put_member {A : Type} (key : string) (v : A) (members : list (string * A))
  : list (string * A) :=
  match members with
  | [] => [(key, v)]
  | (k, v') :: others =>
      if bool_decide (k = key) then (key, v) :: others
      else if String.ltb key k then (key, v) :: (k, v') :: others
      else (k, v') :: put_member key v others
  end.

Fixpoint remove_member {A : Type} (key : string) (members : list (string * A))
  : list (string * A) :=
  match members with
  | [] => []
  | (k, v) :: others =>
      if bool_decide (k = key) then others else (k, v) :: remove_member key others
  end.

Section Json.

Context {F : Type} `{!JsonLibrary F}.

Definition contains (j : json F) (key : string) : bool :=
  match j with
  | JObject members => bool_decide (is_Some (find_member key members))
  | _ => false
  end.

Definition is_string (j : json F) : bool :=
  match j with
  | JString _ => true
  | _ => false
  end.

(** [j[key]] read: the member, [null] where the library would insert one,
    a [type_error] on a value that is neither an object nor [null]. *)
Definition index (j : json F) (key : string) : exception + json F :=
  match j with
  | JObject members => inr (default JNull (find_member key members))
  | JNull => inr JNull
  | _ => inl (std_exception (type_error_what j))
  end.

(** [j[key] = v]. *)
Definition assign (j : json F) (key : string) (v : json F) : exception + json F :=
  match j with
  | JObject members => inr (JObject (put_member key v members))
  | JNull => inr (JObject [(key, v)])
  | _ => inl (std_exception (type_error_what j))
  end.

(** [j.get<std::string>()]. *)
Definition get_string (j : json F) : exception + string :=
  match j with
  | JString s => inr s
  | _ => inl (std_exception (type_error_what j))
  end.

End Json.

(** ** [FileManager] ([file_manager.hpp], [file_manager.cpp]) *)

Inductive FileError :=
| KeyDirectoryNotFound
| FileNotFound
| InvalidJson
| FileTooLarge
| InvalidFilename
| IoError
| JsonEncodingError.

#[global] Instance FileError_eq_dec : EqDecision FileError.
Proof. solve_decision. Defined.

(** [std::expected<T, E>]. *)
Inductive expected (T E : Type) : Type :=
| value (t : T)
| unexpected (e : E).

Arguments value {T E} t.
Arguments unexpected {T E} e.

Record FileManager := { data_directory_ : string }.

Section FileManagerOps.

Context {F : Type} `{!JsonLibrary F}.
Variable this : FileManager.

Definition get_key_directory (key : string) : string :=
  data_directory_ this +:+ "/" +:+ key.

Definition get_file_path (key filename : string) : string :=
  get_key_directory key +:+ "/" +:+ filename.

Definition key_directory_exists (fs : filesystem) (key : string) : bool :=
  let key_dir := get_key_directory key in
  fs_exists fs key_dir && fs_is_directory fs key_dir.

Definition put_json (fs : filesystem) (key filename : string) (data : json F)
  : expected unit FileError * filesystem :=
  if empty key then (unexpected InvalidFilename, fs)
  else if negb (key_directory_exists fs key) then (unexpected KeyDirectoryNotFound, fs)
  else
    let sanitized_filename := sanitize_filename filename in
    if empty sanitized_filename then (unexpected InvalidFilename, fs)
    else
      let filename_with_ext := ensure_json_extension sanitized_filename in
      let file_path := get_file_path key filename_with_ext in
      match dump data with
      | None => (unexpected JsonEncodingError, fs)
      | Some json_string =>
          if MAX_JSON_SIZE_BYTES <? size json_string then (unexpected FileTooLarge, fs)
          else
            match ofstream_open fs file_path with
            | None => (unexpected IoError, fs)
            | Some (file, fs1) =>
                match ofstream_write fs1 file json_string with
                | (true, fs2) => (unexpected IoError, fs2)
                | (false, fs2) => (value tt, fs2)
                end
            end
      end.

Definition get_json (fs : filesystem) (key filename : string)
  : expected (json F) FileError :=
  if empty key || empty filename then unexpected InvalidFilename
  else if negb (key_directory_exists fs key) then unexpected KeyDirectoryNotFound
  else
    let sanitized_filename := sanitize_filename filename in
    let filename_with_ext := ensure_json_extension sanitized_filename in
    let file_path := get_file_path key filename_with_ext in
    if negb (fs_exists fs file_path) then unexpected FileNotFound
    else
      match ifstream_open fs file_path with
      | None => unexpected IoError
      | Some content =>
          if MAX_JSON_SIZE_BYTES <? size content then unexpected FileTooLarge
          else
            match parse content with
            | inr data => value data
            | inl (parse_error _) => unexpected InvalidJson
            | inl (std_exception _) => unexpected IoError
            end
      end.

(** The body of the loop over the directory entries, on the vector [files]. *)
Definition collect_step (files : list string) (entry : string * node) : list string :=
  if is_regular_file entry.2 then
    let filename := entry.1 in
    if has_json_extension filename then files ++ [filename] else files
  else files.

Definition list_files (fs : filesystem) (key : string)
  : expected (list string) FileError :=
  if empty key then unexpected InvalidFilename
  else if negb (key_directory_exists fs key) then unexpected KeyDirectoryNotFound
  else
    let key_dir := get_key_directory key in
    match directory_iterator fs key_dir with
    | None => unexpected IoError
    | Some entries => value (std_sort (fold_left collect_step entries []))
    end.

End FileManagerOps.

(** ** [ApiHandler] ([api_handler.hpp], [api_handler.cpp]) *)

Inductive HttpStatus :=
| Ok
| BadRequest
| NotFound
| PayloadTooLarge
| InternalServerError.

Record ApiResult (F : Type) := api_result {
  status : HttpStatus;
  message : string;
  data : option (json F)
}.

Arguments api_result {F} status message data.
Arguments status {F} _.
Arguments message {F} _.
Arguments data {F} _.

Record ApiHandler := { file_manager_ : FileManager }.

Section ApiHandlerOps.

Context {F : Type} `{!JsonLibrary F}.
Variable this : ApiHandler.

Definition file_error_to_api_result (error : FileError) : ApiResult F :=
  match error with
  | KeyDirectoryNotFound => api_result NotFound "Key directory not found" None
  | FileNotFound => api_result NotFound "File not found" None
  | InvalidJson => api_result BadRequest "Invalid JSON data" None
  | FileTooLarge => api_result PayloadTooLarge "File exceeds maximum size (1MB)" None
  | InvalidFilename => api_result BadRequest "Invalid filename" None
  | IoError => api_result InternalServerError "File I/O error" None
  | JsonEncodingError => api_result InternalServerError "JSON encoding error" None
  end.

(** [!request.contains(k) || !request[k].is_string()]. *)
Definition missing_or_not_string (request : json F) (k : string) : exception + bool :=
  if negb (contains request k) then returns true
  else try field ← index request k; returns (negb (is_string field)).

(** The two [catch] clauses shared by the three handlers. *)
Definition catch_all {A : Type} (attempt : exception + A) (on_error : ApiResult F → A)
  : A :=
  match attempt with
  | inr a => a
  | inl (parse_error _) => on_error (api_result BadRequest "Invalid JSON" None)
  | inl (std_exception what) => on_error (api_result InternalServerError what None)
  end.

Definition handle_put (fs : filesystem) (request_body : string)
  : ApiResult F * filesystem :=
  catch_all (A := ApiResult F * filesystem)
    (try request ← parse request_body;
     try bad_key ← missing_or_not_string request "key";
     if bad_key
     then returns (api_result BadRequest "Missing or invalid 'key' field" None, fs)
     else
       try bad_filename ← missing_or_not_string request "filename";
       if bad_filename
       then returns (api_result BadRequest "Missing or invalid 'filename' field" None, fs)
       else if negb (contains request "data")
       then returns (api_result BadRequest "Missing 'data' field" None, fs)
       else
         try key_field ← index request "key";
         try key ← get_string key_field;
         try filename_field ← index request "filename";
         try filename ← get_string filename_field;
         try data ← index request "data";
         match put_json (file_manager_ this) fs key filename data with
         | (unexpected error, fs') => returns (file_error_to_api_result error, fs')
         | (value _, fs') => returns (api_result Ok "success" None, fs')
         end)
    (λ result, (result, fs)).

Definition handle_get (fs : filesystem) (request_body : string) : ApiResult F :=
  catch_all (A := ApiResult F)
    (try request ← parse request_body;
     try bad_key ← missing_or_not_string request "key";
     if bad_key
     then returns (api_result BadRequest "Missing or invalid 'key' field" None)
     else
       try bad_filename ← missing_or_not_string request "filename";
       if bad_filename
       then returns (api_result BadRequest "Missing or invalid 'filename' field" None)
       else
         try key_field ← index request "key";
         try key ← get_string key_field;
         try filename_field ← index request "filename";
         try filename ← get_string filename_field;
         match get_json (file_manager_ this) fs key filename with
         | unexpected error => returns (file_error_to_api_result error)
         | value document =>
             try response_data ← assign JNull "data" document;
             returns (api_result Ok "success" (Some response_data))
         end)
    (λ result, result).

Definition handle_list (fs : filesystem) (request_body : string) : ApiResult F :=
  catch_all (A := ApiResult F)
    (try request ← parse request_body;
     try bad_key ← missing_or_not_string request "key";
     if bad_key
     then returns (api_result BadRequest "Missing or invalid 'key' field" None)
     else
       try key_field ← index request "key";
         try key ← get_string key_field;
       match list_files (file_manager_ this) fs key with
       | unexpected error => returns (file_error_to_api_result error)
       | value files =>
           try response_data ← assign JNull "files" (JArray (JString <$> files));
           returns (api_result Ok "success" (Some response_data))
       end)
    (λ result, result).

End ApiHandlerOps.

(** ** The request callbacks of [DataServer::start] ([data_server.cpp]) *)

Definition status_to_int (status : HttpStatus) : N :=
  match status with
  | Ok => 200
  | BadRequest => 400
  | NotFound => 404
  | PayloadTooLarge => 413
  | InternalServerError => 500
  end.

Definition status_to_string (status : HttpStatus) : string :=
  match status_to_int status with
  | 200 => "200 OK"
  | 400 => "400 Bad Request"
  | 404 => "404 Not Found"
  | 413 => "413 Payload Too Large"
  | _ => "500 Internal Server Error"
  end.

(** [std::to_string] on a [size_t]. *)
Definition to_string (n : N) : string := NilEmpty.string_of_uint (N.to_uint n).

(** One [writeStatus(..)->writeHeader(..)..->end(..)] on the response object. *)
Record response := Response {
  status_line : string;
  headers : list (string * string);
  body : string
}.

#[global] Instance response_eq_dec : EqDecision response.
Proof. solve_decision. Defined.

Inductive route :=
| api_put
| api_get
| api_list.

(** What one request's callbacks can reach: the buffer they share, what has
    been written to the response object and what was handed to the
    [ApiHandler] (both oldest first), and the file system. *)
Record request_state := RequestState {
  body_buffer : string;
  written : list response;
  handled : list string;
  disk : filesystem
}.

Definition new_request (fs : filesystem) : request_state :=
  {| body_buffer := ""; written := []; handled := []; disk := fs |}.

Section DataServer.

Context {F : Type} `{!JsonLibrary F}.
Variable handler : ApiHandler.

(** An exception that leaves a callback is caught nowhere: [None]. *)
Definition uncaught {A : Type} (x : exception + A) : option A :=
  match x with
  | inr a => Some a
  | inl _ => None
  end.

Definition send_response (result : ApiResult F) : option response :=
  response_json ← uncaught (assign JNull "status" (JString (message result)));
  let response_json :=
    match data result with
    | Some patch => merge_patch response_json patch
    | None => response_json
    end in
  response_str ← dump response_json;
  Some {| status_line := status_to_string (status result);
          headers := [("Content-Type", "application/json");
                      ("Content-Length", to_string (size response_str))];
          body := response_str |}.

Definition too_large_response : option response :=
  error_response ← uncaught (assign JNull "error" (JString "Request body too large"));
  error_str ← dump error_response;
  Some {| status_line := "413 Payload Too Large";
          headers := [("Content-Type", "application/json")];
          body := error_str |}.

Definition handle (r : route) (fs : filesystem) (request_body : string)
  : ApiResult F * filesystem :=
  match r with
  | api_put => handle_put handler fs request_body
  | api_get => (handle_get handler fs request_body, fs)
  | api_list => (handle_list handler fs request_body, fs)
  end.

(** The [onData] callback registered by each of the three routes. *)
Definition on_data (r : route) (st : request_state) (chunk : string) (is_last : bool)
  : option request_state :=
  let buffer := body_buffer st +:+ chunk in
  if MAX_REQUEST_SIZE <? size buffer then
    error ← too_large_response;
    Some {| body_buffer := buffer; written := written st ++ [error];
            handled := handled st; disk := disk st |}
  else if is_last then
    let '(result, fs') := handle r (disk st) buffer in
    reply ← send_response result;
    Some {| body_buffer := buffer; written := written st ++ [reply];
            handled := handled st ++ [buffer]; disk := fs' |}
  else
    Some {| body_buffer := buffer; written := written st;
            handled := handled st; disk := disk st |}.

(** The transport calls [onData] once per chunk, in order, and flags the
    last one. *)
Fixpoint deliver (r : route) (st : request_state) (chunks : list string)
  : option request_state :=
  match chunks with
  | [] => Some st
  | [chunk] => on_data r st chunk true
  | chunk :: rest => st' ← on_data r st chunk false; deliver r st' rest
  end.

End DataServer.

(** ** A JSON library for the fragment without floating-point numbers

    An instance of [JsonLibrary] that computes: compact serialization and a
    recursive-descent parser for ASCII JSON texts whose numbers are
    integers, and the merge patch of RFC 7386. It is what the closed examples
    of this development run on. *)

Module MiniJson.

Definition hex_digit (n : N) : ascii :=
  ascii_of_N (if n <? 10 then 48 + n else 87 + n).

Definition escape_char (c : ascii) : option string :=
  let n := N_of_ascii c in
  if bool_decide (c = quote) then Some (String backslash (String quote ""))
  else if bool_decide (c = backslash) then Some (String backslash (String backslash ""))
  else if n =? 8 then Some (String backslash "b")
  else if n =? 9 then Some (String backslash "t")
  else if n =? 10 then Some (String backslash "n")
  else if n =? 12 then Some (String backslash "f")
  else if n =? 13 then Some (String backslash "r")
  else if n <? 32
  then Some (String backslash ("u00" +:+ String (hex_digit (n / 16)) (String (hex_digit (n mod 16)) "")))
  else if n <? 128 then Some (String c "")
  else None.

Fixpoint dump_chars (s : string) : option string :=
  match s with
  | EmptyString => Some ""
  | String c s' =>
      e ← escape_char c; r ← dump_chars s'; Some (e +:+ r)
  end.

Definition dump_string (s : string) : option string :=
  b ← dump_chars s; Some (String quote b +:+ String quote "").

Fixpoint dump_value (j : json Empty_set) : option string :=
  match j with
  | JNull => Some "null"
  | JBoolean true => Some "true"
  | JBoolean false => Some "false"
  | JInteger z =>
      Some (if (z <? 0)%Z then "-" +:+ to_string (Z.to_N (- z)) else to_string (Z.to_N z))
  | JUnsigned n => Some (to_string n)
  | JFloat f => match f with end
  | JString s => dump_string s
  | JArray elements =>
      inner ← (fix dump_elements (l : list (json Empty_set)) : option string :=
                 match l with
                 | [] => Some ""
                 | [x] => dump_value x
                 | x :: l' => a ← dump_value x; b ← dump_elements l'; Some (a +:+ "," +:+ b)
                 end) elements;
      Some ("[" +:+ inner +:+ "]")
  | JObject members =>
      inner ← (fix dump_members (l : list (string * json Empty_set)) : option string :=
                 match l with
                 | [] => Some ""
                 | [(k, x)] => a ← dump_string k; b ← dump_value x; Some (a +:+ ":" +:+ b)
                 | (k, x) :: l' =>
                     a ← dump_string k; b ← dump_value x; c ← dump_members l';
                     Some (a +:+ ":" +:+ b +:+ "," +:+ c)
                 end) members;
      Some ("{" +:+ inner +:+ "}")
  end.

Fixpoint skip_ws (s : string) : string :=
  match s with
  | String c s' => if Ascii.is_space c then skip_ws s' else s
  | EmptyString => ""
  end.

Definition digit (c : ascii) : option N :=
  let n := N_of_ascii c in
  if (48 <=? n) && (n <=? 57) then Some (n - 48) else None.

Fixpoint parse_digits (acc : N) (s : string) : N * string :=
  match s with
  | String c s' =>
      match digit c with
      | Some d => parse_digits (10 * acc + d) s'
      | None => (acc, s)
      end
  | EmptyString => (acc, "")
  end.

(** A number followed by a fraction or an exponent is a float: outside the
    fragment. *)
Definition parse_number (s : string) : option (N * string) :=
  match s with
  | String c _ =>
      match digit c with
      | Some _ =>
          let '(n, rest) := parse_digits 0 s in
          match rest with
          | String d _ =>
              if bool_decide (d = "."%char ∨ d = "e"%char ∨ d = "E"%char) then None
              else Some (n, rest)
          | EmptyString => Some (n, rest)
          end
      | None => None
      end
  | EmptyString => None
  end.

Definition unescape (c : ascii) : option ascii :=
  if bool_decide (c = quote) then Some quote
  else if bool_decide (c = backslash) then Some backslash
  else if bool_decide (c = "/"%char) then Some "/"%char
  else if bool_decide (c = "b"%char) then Some "008"%char
  else if bool_decide (c = "t"%char) then Some "009"%char
  else if bool_decide (c = "n"%char) then Some "010"%char
  else if bool_decide (c = "f"%char) then Some "012"%char
  else if bool_decide (c = "r"%char) then Some "013"%char
  else None.

(** The characters of a string literal after its opening quote. *)
Fixpoint parse_chars (s : string) : option (string * string) :=
  match s with
  | EmptyString => None
  | String c s' =>
      if bool_decide (c = quote) then Some ("", s')
      else if bool_decide (c = backslash) then
        match s' with
        | String e s'' =>
            ch ← unescape e; r ← parse_chars s''; Some (String ch r.1, r.2)
        | EmptyString => None
        end
      else if (N_of_ascii c <? 32) || (127 <? N_of_ascii c) then None
      else r ← parse_chars s'; Some (String c r.1, r.2)
  end.

Definition expect (word : string) (s : string) : option string :=
  if String.prefix word s
  then Some (String.substring (String.length word) (String.length s - String.length word) s)
  else None.

Fixpoint parse_elements (parse_one : string → option (json Empty_set * string))
    (fuel : nat) (s : string) : option (list (json Empty_set) * string) :=
  match fuel with
  | O => None
  | S fuel' =>
      v ← parse_one s;
      match skip_ws v.2 with
      | String c rest =>
          if bool_decide (c = ","%char) then
            r ← parse_elements parse_one fuel' rest; Some (v.1 :: r.1, r.2)
          else if bool_decide (c = "]"%char) then Some ([v.1], rest)
          else None
      | EmptyString => None
      end
  end.

Fixpoint parse_members (parse_one : string → option (json Empty_set * string))
    (fuel : nat) (s : string) : option (list (string * json Empty_set) * string) :=
  match fuel with
  | O => None
  | S fuel' =>
      after_quote ← expect (String quote "") (skip_ws s);
      k ← parse_chars after_quote;
      after_colon ← expect ":" (skip_ws k.2);
      v ← parse_one after_colon;
      match skip_ws v.2 with
      | String c rest =>
          if bool_decide (c = ","%char) then
            r ← parse_members parse_one fuel' rest;
            Some (if bool_decide (is_Some (find_member k.1 r.1)) then r.1
                  else put_member k.1 v.1 r.1, r.2)
          else if bool_decide (c = "}"%char) then Some ([(k.1, v.1)], rest)
          else None
      | EmptyString => None
      end
  end.

Fixpoint parse_value (fuel : nat) (s : string) : option (json Empty_set * string) :=
  match fuel with
  | O => None
  | S fuel' =>
      match skip_ws s with
      | String c rest =>
          if bool_decide (c = "n"%char) then r ← expect "ull" rest; Some (JNull, r)
          else if bool_decide (c = "t"%char) then r ← expect "rue" rest; Some (JBoolean true, r)
          else if bool_decide (c = "f"%char) then r ← expect "alse" rest; Some (JBoolean false, r)
          else if bool_decide (c = quote) then r ← parse_chars rest; Some (JString r.1, r.2)
          else if bool_decide (c = "["%char) then
            match skip_ws rest with
            | String "]" after => Some (JArray [], after)
            | _ => r ← parse_elements (parse_value fuel') (String.length rest) rest;
                   Some (JArray r.1, r.2)
            end
          else if bool_decide (c = "{"%char) then
            match skip_ws rest with
            | String "}" after => Some (JObject [], after)
            | _ => r ← parse_members (parse_value fuel') (String.length rest) rest;
                   Some (JObject r.1, r.2)
            end
          else if bool_decide (c = "-"%char) then
            r ← parse_number rest; Some (JInteger (- Z.of_N r.1), r.2)
          else r ← parse_number (String c rest); Some (JUnsigned r.1, r.2)
      | EmptyString => None
      end
  end.

Definition parse_text (s : string) : exception + json Empty_set :=
  match parse_value (S (String.length s)) s with
  | Some (j, rest) =>
      if empty (skip_ws rest) then inr j
      else inl (parse_error "[json.exception.parse_error.101] unexpected trailing input")
  | None => inl (parse_error "[json.exception.parse_error.101] syntax error")
  end.

Fixpoint merge (target patch : json Empty_set) : json Empty_set :=
  match patch with
  | JObject patch_members =>
      JObject
        ((fix apply (l : list (string * json Empty_set))
                    (members : list (string * json Empty_set)) :=
            match l with
            | [] => members
            | (k, JNull) :: l' => apply l' (remove_member k members)
            | (k, v) :: l' =>
                apply l' (put_member k (merge (default JNull (find_member k members)) v)
                                     members)
            end) patch_members
           (match target with JObject members => members | _ => [] end))
  | _ => patch
  end.

#[global] Instance library : JsonLibrary Empty_set := {|
  parse := parse_text;
  dump := dump_value;
  merge_patch := merge;
  type_error_what := λ _, "[json.exception.type_error] unexpected type"
|}.

End MiniJson.

(** ** Numbers that are not finite

    [nlohmann::json] stores NaN and the infinities as floating-point
    numbers; [dump()] writes each of them as [null] and does not throw, and
    [json::parse] never yields one. [NonFiniteJson] is [MiniJson] with
    such numbers added. *)

Module NonFiniteJson.

Inductive non_finite :=
| NaN
| PositiveInfinity
| NegativeInfinity.

Fixpoint embed (j : json Empty_set) : json non_finite :=
  match j with
  | JNull => JNull
  | JBoolean b => JBoolean b
  | JInteger z => JInteger z
  | JUnsigned n => JUnsigned n
  | JFloat f => match f with end
  | JString s => JString s
  | JArray elements => JArray (List.map embed elements)
  | JObject members =>
      JObject (List.map (λ member, match member with (k, v) => (k, embed v) end) members)
  end.

(** The value whose text [dump()] writes: [null] in place of each number
    that is not finite. *)
Fixpoint written_form (j : json non_finite) : json Empty_set :=
  match j with
  | JNull => JNull
  | JBoolean b => JBoolean b
  | JInteger z => JInteger z
  | JUnsigned n => JUnsigned n
  | JFloat _ => JNull
  | JString s => JString s
  | JArray elements => JArray (List.map written_form elements)
  | JObject members =>
      JObject (List.map (λ member, match member with (k, v) => (k, written_form v) end)
                        members)
  end.

Definition dump_value (j : json non_finite) : option string :=
  MiniJson.dump_value (written_form j).

Definition parse_text (s : string) : exception + json non_finite :=
  match MiniJson.parse_text s with
  | inl thrown => inl thrown
  | inr j => inr (embed j)
  end.

Fixpoint merge (target patch : json non_finite) : json non_finite :=
  match patch with
  | JObject patch_members =>
      JObject
        ((fix apply (l : list (string * json non_finite))
                    (members : list (string * json non_finite)) :=
            match l with
            | [] => members
            | (k, JNull) :: l' => apply l' (remove_member k members)
            | (k, v) :: l' =>
                apply l' (put_member k (merge (default JNull (find_member k members)) v)
                                     members)
            end) patch_members
           (match target with JObject members => members | _ => [] end))
  | _ => patch
  end.

Definition library : JsonLibrary non_finite := {|
  parse := parse_text;
  dump := dump_value;
  merge_patch := merge;
  type_error_what := λ _, "[json.exception.type_error] unexpected type"
|}.

End NonFiniteJson.

(** ** Notions used in the statements *)

(** The file at path [p] can be opened, written and read back: no operation
    on it is refused, and no directory or special node stands in its place. *)
Definition io_succeeds (fs : filesystem) (p : string) : bool :=
  match resolve fs p with
  | Some q =>
      bool_decide ((OpenForWriting, q) ∉ refused fs) &&
      bool_decide ((Writing, q) ∉ refused fs) &&
      bool_decide ((OpenForReading, q) ∉ refused fs) &&
      match node_at fs q with
      | Some Directory | Some Other => false
      | Some (RegularFile _) | None => true
      end
  | None => false
  end.

(** The regular files of directory [dir] whose name passes the [.json] test. *)
Definition json_file_in (fs : filesystem) (dir : list string) (name : string) : Prop :=
  (∃ content, nodes fs !! (dir ++ [name]) = Some (RegularFile content)) ∧
  (∃ stem, name = stem +:+ ".json").

(** The letters and digits of a string, in order. *)
Definition alnum_chars (s : string) : list ascii :=
  filter (λ c, isalnum c = true) (chars s).

(** The whole body that a sequence of chunks carries. *)
Definition concat_chunks (chunks : list string) : string :=
  foldr String.append "" chunks.

(** The entries that the loop of [list_files] retains. *)
Definition listed (entry : string * node) : Prop :=
  is_regular_file entry.2 = true ∧ has_json_extension entry.1 = true.

#[global] Instance listed_dec entry : Decision (listed entry).
Proof. unfold listed. apply _. Defined.

(** ** Concrete inputs for the examples *)

Definition example_manager : FileManager := {| data_directory_ := "data" |}.

Definition example_handler : ApiHandler := {| file_manager_ := example_manager |}.

(** The data directory with one key directory, [k], and nothing else. *)
Definition example_fs : filesystem :=
  {| nodes := {[ ["data"] := Directory; ["data"; "k"] := Directory ]};
     refused := ∅ |}.

Definition example_document : json Empty_set :=
  JObject [("n", JUnsigned 1); ("tags", JArray [JString "a"; JNull])].

(** The key directory with a file named [.json], put there by other means. *)
Definition example_fs_hidden : filesystem :=
  set_node ["data"; "k"; ".json"] (RegularFile "1") example_fs.

Definition quoted (s : string) : string := String quote s +:+ String quote "".

(** The request body [{"key":key,"filename":filename,"data":data_text}]. *)
Definition example_body (key filename data_text : string) : string :=
  "{" +:+ quoted "key" +:+ ":" +:+ quoted key +:+ "," +:+
  quoted "filename" +:+ ":" +:+ quoted filename +:+ "," +:+
  quoted "data" +:+ ":" +:+ data_text +:+ "}".

(** A document whose serialization is two bytes longer than [n]. *)
Definition string_document (n : N) : json Empty_set := JString (fill n "a").

(** A chunk of exactly 1 MiB, and a request state whose buffer has already
    exceeded the limit and whose 413 response [error] is written. *)
Definition mebibyte_chunk : string := fill MAX_REQUEST_SIZE "a".

Definition rejected_state (error : response) : request_state :=
  {| body_buffer := mebibyte_chunk +:+ "b"; written := [error];
     handled := []; disk := example_fs |}.

(** The file at resolved path [q] can be created or overwritten: neither
    the opening nor the writing is refused, and no directory or special node
    stands in its place. *)
Definition can_write (fs : filesystem) (q : list string) : bool :=
  bool_decide ((OpenForWriting, q) ∉ refused fs) &&
  bool_decide ((Writing, q) ∉ refused fs) &&
  match node_at fs q with
  | Some Directory | Some Other => false
  | Some (RegularFile _) | None => true
  end.

(** The errors each operation of the store can return. *)
Definition put_json_errors : list FileError :=
  [InvalidFilename; KeyDirectoryNotFound; JsonEncodingError; FileTooLarge; IoError].

Definition get_json_errors : list FileError :=
  [InvalidFilename; KeyDirectoryNotFound; FileNotFound; IoError; FileTooLarge; InvalidJson].

Definition list_files_errors : list FileError :=
  [InvalidFilename; KeyDirectoryNotFound; IoError].

(** A file system with the data directory, a key directory in it, and a
    directory beside the data directory. *)
Definition example_fs_sibling : filesystem :=
  {| nodes := {[ ["data"] := Directory; ["data"; "k"] := Directory;
                 ["secrets"] := Directory ]};
     refused := ∅ |}.

Definition example_document2 : json Empty_set := JArray [JBoolean true; JInteger (-3)].

(** The example file system after a document was stored under ["b"]. *)
Definition example_fs_b : filesystem :=
  (put_json example_manager example_fs "k" "b" example_document).2.

(** * Properties *)

(** ** Facts about the string primitives *)

Section StringFacts.

Implicit Types (s t : string) (c : ascii).

Lemma app_cons c s t : String c s +:+ t = String c (s +:+ t).
Proof. done. Qed.

Lemma chars_cons c s : chars (String c s) = c :: chars s.
Proof. done. Qed.

Lemma chars_app s t : chars (s +:+ t) = chars s ++ chars t.
Proof. induction s as [|c s IH]; [done|]. by rewrite app_cons, !chars_cons, IH. Qed.

Lemma length_chars s : length (chars s) = String.length s.
Proof. induction s; simpl; auto. Qed.

Lemma length_app s t : String.length (s +:+ t) = (String.length s + String.length t)%nat.
Proof. induction s as [|c s IH]; [done|]. rewrite app_cons. simpl. by rewrite IH. Qed.

Lemma size_app s t : size (s +:+ t) = size s + size t.
Proof. unfold size. rewrite length_app. lia. Qed.

Lemma size_fill n c : size (fill n c) = n.
Proof.
  unfold fill, size. induction n as [|n IH] using N.peano_ind; [done|].
  rewrite N.iter_succ. simpl String.length. lia.
Qed.

Lemma empty_true s : empty s = true ↔ s = "".
Proof. destruct s; simpl; split; congruence. Qed.

Lemma empty_false s : empty s = false ↔ s ≠ "".
Proof. destruct s; simpl; split; congruence. Qed.

Lemma app_assoc_string s t u : (s +:+ t) +:+ u = s +:+ t +:+ u.
Proof. induction s as [|c s IH]; [done | by rewrite !app_cons, IH]. Qed.

Lemma app_empty_r s : s +:+ "" = s.
Proof. induction s as [|c s IH]; [done | by rewrite app_cons, IH]. Qed.

Lemma rchars_cons c s : rchars (String c s) = rchars s ++ [c].
Proof. done. Qed.

Lemma rchars_nil s : rchars s = [] ↔ s = "".
Proof.
  destruct s as [|c s]; [done|]. rewrite rchars_cons.
  split; [|done]. intros H. by destruct (rchars s).
Qed.

Lemma rchars_push_back s c : rchars (push_back s c) = c :: rchars s.
Proof. unfold rchars, push_back. rewrite chars_app. simpl. by rewrite rev_app_distr. Qed.

Lemma back_head s : back s = head (rchars s).
Proof.
  induction s as [|c s IH]; [done|].
  rewrite rchars_cons. destruct s as [|c' s']; [done|].
  change (back (String c (String c' s'))) with (back (String c' s')).
  rewrite IH, rchars_cons. by destruct (rchars s').
Qed.

Lemma rchars_pop_back s : rchars (pop_back s) = tail (rchars s).
Proof.
  induction s as [|c s IH]; [done|].
  destruct s as [|c' s']; [done|].
  change (pop_back (String c (String c' s'))) with (String c (pop_back (String c' s'))).
  rewrite !rchars_cons, IH, rchars_cons. by destruct (rchars s').
Qed.

Lemma length_rchars s : length (rchars s) = String.length s.
Proof. unfold rchars. by rewrite length_rev, length_chars. Qed.

Lemma of_rchars s : String.string_of_list_ascii (rev (rchars s)) = s.
Proof.
  unfold rchars, chars.
  by rewrite rev_involutive, String.string_of_list_ascii_of_string.
Qed.

Lemma elem_of_rchars c s : c ∈ rchars s ↔ c ∈ chars s.
Proof. unfold rchars. rewrite !list_elem_of_In. symmetry. apply in_rev. Qed.

Lemma ascii_eqb_decide c c' : Ascii.eqb c c' = bool_decide (c = c').
Proof.
  destruct (Ascii.eqb_spec c c');
    [by rewrite bool_decide_eq_true_2 | by rewrite bool_decide_eq_false_2].
Qed.

Lemma substring_all s : String.substring 0 (String.length s) s = s.
Proof. induction s as [|c s IH]; simpl; [done | by rewrite IH]. Qed.

Lemma substring_none s : String.substring 0 0 s = "".
Proof. by destruct s. Qed.

(** [substring] cuts a string in two. *)
Lemma substring_split s (n : nat) :
  (n ≤ String.length s)%nat →
  s = String.substring 0 n s +:+ String.substring n (String.length s - n) s.
Proof.
  revert s. induction n as [|n IH]; intros s Hn.
  - by rewrite Nat.sub_0_r, substring_none, substring_all.
  - destruct s as [|c s]; simpl in Hn; [lia|].
    simpl String.substring. rewrite app_cons. f_equal. apply IH. lia.
Qed.

Lemma substring_suffix s t :
  String.substring (String.length s) (String.length t) (s +:+ t) = t.
Proof.
  induction s as [|c s IH]; [apply substring_all|].
  by rewrite app_cons.
Qed.

(** The test both [ensure_json_extension] and [list_files] make is: the
    name ends in [".json"]. *)
Lemma has_json_extension_spec s :
  has_json_extension s = true ↔ ∃ stem, s = stem +:+ ".json".
Proof.
  unfold has_json_extension, substr. change (size JSON_EXTENSION) with 5.
  change JSON_EXTENSION with ".json". unfold size.
  rewrite andb_true_iff, N.leb_le, bool_decide_eq_true.
  set (n := String.length s).
  replace (N.to_nat (N.of_nat n - 5)) with (n - 5)%nat by lia.
  split.
  - intros [Hle Hsub]. exists (String.substring 0 (n - 5) s).
    rewrite <- Hsub. apply substring_split. lia.
  - intros [stem Hs]. subst n. rewrite Hs, length_app. simpl String.length.
    split; [lia|].
    replace (String.length stem + 5 - 5)%nat with (String.length stem) by lia.
    replace (String.length stem + 5 - String.length stem)%nat
      with (String.length ".json") by (simpl; lia).
    apply substring_suffix.
Qed.

End StringFacts.

(** ** Sanitization *)

Section Sanitize.

Implicit Types (r s : string) (c : ascii) (out cs : list ascii).

Lemma scan_cons out c rest :
  Reference.scan out (c :: rest) = Reference.scan (Reference.scan out [c]) rest.
Proof.
  simpl. repeat case_bool_decide; try done.
  - destruct out as [|last_out ?]; [done|]. by case_bool_decide.
  - by destruct (isalnum c || true || true).
  - by destruct (isalnum c || true || false).
  - by destruct (isalnum c || false || true).
  - by destruct (isalnum c || false || false).
Qed.

Lemma sanitize_step_scan r c :
  rchars (sanitize_step r c) = Reference.scan (rchars r) [c].
Proof.
  unfold sanitize_step, is_valid_json_character. rewrite !ascii_eqb_decide, back_head.
  simpl Reference.scan.
  destruct (decide (c = "/"%char)) as [->|?]; [done|].
  destruct (decide (c = backslash)) as [->|?]; [done|].
  destruct (decide (c = NUL)) as [->|?]; [done|].
  rewrite (bool_decide_eq_false_2 (c = "/"%char)), (bool_decide_eq_false_2 (c = backslash)),
    (bool_decide_eq_false_2 (c = NUL)), (bool_decide_eq_false_2 (_ ∨ _)) by tauto.
  simpl orb. destruct (decide (c = "."%char)) as [->|?].
  - rewrite !bool_decide_eq_true_2 by done. simpl andb.
    destruct (rchars r) as [|last_out out] eqn:Hr.
    + apply rchars_nil in Hr as ->. done.
    + assert (empty r = false) as ->.
      { apply empty_false. intros ->. discriminate. }
      simpl. case_bool_decide as Hb; simplify_eq.
      * by rewrite bool_decide_eq_true_2, Hr.
      * rewrite bool_decide_eq_false_2 by congruence. by rewrite rchars_push_back, Hr.
  - rewrite !(bool_decide_eq_false_2 (c = "."%char)) by done. simpl andb.
    destruct (isalnum c || _ || _); [apply rchars_push_back | done].
Qed.

Lemma sanitize_loop_scan cs r :
  rchars (fold_left sanitize_step cs r) = Reference.scan (rchars r) cs.
Proof.
  revert r. induction cs as [|c cs IH]; intros r; [done|].
  simpl fold_left. by rewrite IH, sanitize_step_scan, <- scan_cons.
Qed.

Lemma strip_cond_spec r :
  strip_cond r = true ↔ ∃ c out, rchars r = c :: out ∧ (c = "_"%char ∨ c = "-"%char).
Proof.
  unfold strip_cond. rewrite back_head, andb_true_iff, orb_true_iff, negb_true_iff,
    !bool_decide_eq_true, empty_false, <- rchars_nil.
  destruct (rchars r) as [|c out]; simpl.
  - split; [intros [[] _] | intros (? & ? & ? & _)]; done.
  - split; [intros [_ [?|?]] | intros (? & ? & ? & [?|?])]; simplify_eq; eauto.
Qed.

Lemma strip_trailing_strip fuel r :
  (String.length r ≤ fuel)%nat →
  rchars (strip_trailing fuel r) = Reference.strip (rchars r).
Proof.
  revert r. induction fuel as [|fuel IH]; intros r Hlen.
  - destruct r; simpl in Hlen; [done | lia].
  - simpl strip_trailing. destruct (strip_cond r) eqn:Hc.
    + apply strip_cond_spec in Hc as (c & out & Hr & Hc).
      rewrite IH, rchars_pop_back, Hr.
      * simpl. by rewrite bool_decide_eq_true_2.
      * rewrite <- length_rchars, rchars_pop_back, Hr. simpl.
        rewrite <- length_rchars, Hr in Hlen. simpl in Hlen. lia.
    + destruct (rchars r) as [|c out] eqn:Hr; [done|]. simpl.
      case_bool_decide as Hb; [|done].
      assert (strip_cond r = true) by (apply strip_cond_spec; eauto). congruence.
Qed.

Lemma sanitize_filename_rchars s :
  rchars (sanitize_filename s) = Reference.strip (Reference.scan [] (chars s)).
Proof.
  unfold sanitize_filename. by rewrite strip_trailing_strip, sanitize_loop_scan.
Qed.

Lemma scan_Forall (P : ascii → Prop) out cs :
  P "_"%char → Forall P out →
  Forall (λ c, isalnum c = true ∨ c = "_"%char ∨ c = "-"%char → P c) cs →
  Forall P (Reference.scan out cs).
Proof.
  intros Hu Hout Hcs. revert out Hout.
  induction Hcs as [|c cs Hc Hcs IH]; intros out Hout; [done|].
  simpl. case_bool_decide; [by apply IH|]. case_bool_decide.
  - destruct out as [|last_out out']; [by apply IH; constructor|].
    case_bool_decide; apply IH; [done | by constructor].
  - destruct (isalnum c || _ || _) eqn:E; [|by apply IH].
    apply IH. constructor; [|done]. apply Hc.
    rewrite !orb_true_iff, !bool_decide_eq_true in E. tauto.
Qed.

Lemma strip_Forall (P : ascii → Prop) out :
  Forall P out → Forall P (Reference.strip out).
Proof.
  induction 1 as [|c out Hc Hout IH]; simpl; [done|].
  case_bool_decide; [done | by constructor].
Qed.

Lemma strip_all out :
  Forall (λ c, c = "_"%char ∨ c = "-"%char) out → Reference.strip out = [].
Proof.
  induction 1 as [|c out Hc Hout IH]; simpl; [done|]. by rewrite bool_decide_eq_true_2.
Qed.

Lemma strip_head out :
  match Reference.strip out with
  | c :: _ => c ≠ "_"%char ∧ c ≠ "-"%char
  | [] => True
  end.
Proof.
  induction out as [|c out IH]; simpl; [done|].
  case_bool_decide as Hc; [done | naive_solver].
Qed.

(** Every character that sanitization lets through is a letter, a digit,
    an underscore or a hyphen. *)
Lemma sanitize_filename_valid s :
  Forall (λ c, is_valid_json_character c = true) (chars (sanitize_filename s)).
Proof.
  apply Forall_forall. intros c Hc. apply elem_of_rchars in Hc.
  rewrite sanitize_filename_rchars in Hc. revert c Hc. apply Forall_forall.
  apply strip_Forall, scan_Forall; [done | done |].
  apply Forall_forall. intros c _. unfold is_valid_json_character.
  rewrite !ascii_eqb_decide, !orb_true_iff, !bool_decide_eq_true. tauto.
Qed.

Lemma sanitize_filename_no_dot s : "."%char ∉ chars (sanitize_filename s).
Proof.
  intros H. pose proof (sanitize_filename_valid s) as Hv.
  rewrite Forall_forall in Hv. by apply Hv in H.
Qed.

Lemma ensure_json_extension_sanitized s :
  ensure_json_extension (sanitize_filename s) = sanitize_filename s +:+ ".json".
Proof.
  unfold ensure_json_extension.
  destruct (has_json_extension (sanitize_filename s)) eqn:He; [|done].
  apply has_json_extension_spec in He as [stem He].
  destruct (sanitize_filename_no_dot s). rewrite He, chars_app. set_solver.
Qed.

End Sanitize.

(** C2. [sanitize_filename] computes the reference transform of the
    specification on every input: slashes, backslashes and NUL are dropped, a
    dot that follows a dot in the output is dropped, any other dot becomes an
    underscore, other characters are kept only if alphanumeric, underscore or
    hyphen, and trailing underscores and hyphens are stripped. The transform is
    total: the trailing loop has reached its exit condition on the result.
    An input without any alphanumeric character yields the empty string. *)
Theorem sanitize_filename_reference (filename : string) :
  sanitize_filename filename = Reference.sanitize filename ∧
  strip_cond (sanitize_filename filename) = false ∧
  (Forall (λ c, isalnum c = false) (chars filename) → sanitize_filename filename = "").
Proof.
  pose proof (sanitize_filename_rchars filename) as Hr. split; [|split].
  - unfold Reference.sanitize. by rewrite <- Hr, of_rchars.
  - destruct (strip_cond _) eqn:Hc; [|done].
    apply strip_cond_spec in Hc as (c & out & Hc & Hu).
    pose proof (strip_head (Reference.scan [] (chars filename))) as Hh.
    rewrite <- Hr, Hc in Hh. destruct Hh, Hu; done.
  - intros Hall. apply rchars_nil. rewrite Hr. apply strip_all.
    apply scan_Forall; [by left | done |].
    eapply Forall_impl; [exact Hall|]. simpl. intros c Hc [?|?]; [congruence | done].
Qed.

Lemma sanitize_filename_reference_witness :
  Forall (λ c, isalnum c = false) (chars "!!!") ∧ sanitize_filename "!!!" = "".
Proof.
  split.
  - repeat constructor.
  - apply (sanitize_filename_reference "!!!"). repeat constructor.
Defined.

(** ** Path resolution *)

Section Paths.

Implicit Types (fs : filesystem) (p name : string) (q cur : list string).

Lemma split_slash_cons p : ∃ first others, split_slash p = first :: others.
Proof.
  destruct p as [|c p]; simpl; [eauto|].
  destruct (Ascii.eqb c "/"); [eauto|]. destruct (split_slash p); eauto.
Qed.

Lemma split_slash_app p p' :
  split_slash (p +:+ String "/" p') = split_slash p ++ split_slash p'.
Proof.
  induction p as [|c p IH]; [done|].
  rewrite app_cons. simpl. destruct (Ascii.eqb c "/"); [by rewrite IH|].
  rewrite IH. by destruct (split_slash_cons p) as (first & others & ->).
Qed.

Lemma split_slash_component name :
  "/"%char ∉ chars name → split_slash name = [name].
Proof.
  induction name as [|c name IH]; [done|].
  rewrite chars_cons, not_elem_of_cons. intros [Hc Hname].
  simpl. rewrite ascii_eqb_decide, bool_decide_eq_false_2 by done. by rewrite IH.
Qed.

Lemma walk_app fs cur names names' :
  walk fs cur (names ++ names') = walk fs cur names ≫= λ q, walk fs q names'.
Proof.
  revert cur. induction names as [|name names IH]; intros cur; [done|].
  simpl. destruct (is_directory_at fs cur); [apply IH | done].
Qed.

(** A path made of the path of a directory, a slash and a plain name
    resolves to the entry of that name in that directory. *)
Lemma resolve_child fs p name q :
  resolve fs p = Some q → is_directory_at fs q = true →
  split_slash name = [name] → name ≠ "" → name ≠ "." → name ≠ ".." →
  resolve fs (p +:+ "/" +:+ name) = Some (q ++ [name]).
Proof.
  unfold resolve. intros Hp Hq Hname H1 H2 H3.
  change ("/" +:+ name) with (String "/" name).
  destruct p as [|c p]; [done|]. simpl empty in *.
  rewrite split_slash_app, walk_app, Hp, Hname. simpl. rewrite Hq.
  unfold enter. rewrite !bool_decide_eq_false_2; [done | done | tauto].
Qed.

(** Resolution looks at the file system only to tell directories apart. *)
Lemma walk_ext fs fs' cur names :
  (∀ q, is_directory_at fs q = is_directory_at fs' q) →
  walk fs cur names = walk fs' cur names.
Proof.
  intros Hd. revert cur. induction names as [|name names IH]; intros cur; [done|].
  simpl. rewrite Hd. by rewrite IH.
Qed.

Lemma resolve_ext fs fs' p :
  (∀ q, is_directory_at fs q = is_directory_at fs' q) →
  resolve fs p = resolve fs' p.
Proof. intros Hd. unfold resolve. by rewrite (walk_ext fs fs'). Qed.

Lemma node_at_set_node fs q n q' :
  q ≠ [] →
  node_at (set_node q n fs) q' = if decide (q = q') then Some n else node_at fs q'.
Proof.
  intros Hq. destruct q' as [|name q']; simpl.
  - by rewrite decide_False.
  - rewrite lookup_insert. by destruct (decide (q = name :: q')).
Qed.

(** Writing a regular file where there was none, or another regular file,
    leaves the directory structure as it was. *)
Lemma is_directory_at_set_file fs q content q' :
  q ≠ [] → is_directory_at fs q = false →
  is_directory_at (set_node q (RegularFile content) fs) q' = is_directory_at fs q'.
Proof.
  intros Hq Hnd. unfold is_directory_at. rewrite node_at_set_node by done.
  destruct (decide (q = q')) as [<-|]; [|done].
  unfold is_directory_at in Hnd. by repeat case_match.
Qed.

End Paths.

(** ** Containment of the paths the store builds *)

Section Containment.

Variable this : FileManager.

Lemma json_name_component s :
  let name := sanitize_filename s +:+ ".json" in
  split_slash name = [name] ∧ name ≠ "" ∧ name ≠ "." ∧ name ≠ "..".
Proof.
  intros name. assert (5 ≤ String.length name)%nat as Hlen.
  { unfold name. rewrite length_app. simpl. lia. }
  split; [|by repeat split; intros E; rewrite E in Hlen; simpl in Hlen; lia].
  apply split_slash_component. unfold name. rewrite chars_app, elem_of_app.
  intros [Hc|Hc].
  - pose proof (sanitize_filename_valid s) as Hv. rewrite Forall_forall in Hv.
    by apply Hv in Hc.
  - revert Hc. by apply (bool_decide_unpack _).
Qed.

(** C1. The sanitized filename holds no slash, no backslash, no NUL and no
    dot, whatever the raw filename is. Hence the name the store uses, once the
    [.json] suffix is ensured, is the sanitized name followed by [.json]: a
    single path component other than [.] and [..]; and the path
    [get_file_path] builds from it resolves to the entry of that name in the
    directory of the key, never to anything outside it. *)
Theorem sanitized_path_is_direct_child (key filename : string) :
  let name := ensure_json_extension (sanitize_filename filename) in
  (∀ c, c ∈ chars (sanitize_filename filename) →
        c ≠ "/"%char ∧ c ≠ backslash ∧ c ≠ NUL ∧ c ≠ "."%char) ∧
  name = sanitize_filename filename +:+ ".json" ∧
  get_file_path this key name = get_key_directory this key +:+ "/" +:+ name ∧
  split_slash name = [name] ∧ name ≠ "" ∧ name ≠ "." ∧ name ≠ ".." ∧
  (∀ fs dir,
     resolve fs (get_key_directory this key) = Some dir →
     is_directory_at fs dir = true →
     resolve fs (get_file_path this key name) = Some (dir ++ [name])).
Proof.
  intros name. unfold name. rewrite ensure_json_extension_sanitized.
  destruct (json_name_component filename) as (Hsplit & H1 & H2 & H3).
  split; [|repeat split; try done].
  - intros c Hc. pose proof (sanitize_filename_valid filename) as Hv.
    rewrite Forall_forall in Hv. apply Hv in Hc.
    repeat split; intros ->; done.
  - intros fs dir Hdir Hd. by apply resolve_child.
Qed.

End Containment.

Lemma sanitized_path_is_direct_child_witness :
  resolve example_fs (get_key_directory example_manager "k") = Some ["data"; "k"] ∧
  is_directory_at example_fs ["data"; "k"] = true ∧
  resolve example_fs
    (get_file_path example_manager "k"
       (ensure_json_extension (sanitize_filename "../../etc/passwd")))
  = Some (["data"; "k"] ++ [ensure_json_extension (sanitize_filename "../../etc/passwd")]).
Proof.
  split; [by vm_compute|]. split; [by vm_compute|].
  apply (sanitized_path_is_direct_child example_manager "k" "../../etc/passwd");
    by vm_compute.
Defined.

(** ** The document store *)

Section FileManagerFacts.

Context {F : Type} `{!JsonLibrary F}.
Variable this : FileManager.

Implicit Types (fs : filesystem) (key filename : string) (document : json F).
Implicit Types (dir q : list string).

Lemma key_directory_exists_spec fs key :
  key_directory_exists this fs key = true ↔
  ∃ dir, resolve fs (get_key_directory this key) = Some dir ∧
         is_directory_at fs dir = true.
Proof.
  unfold key_directory_exists, fs_exists, fs_is_directory.
  destruct (resolve fs _) as [dir|].
  - rewrite andb_true_iff, bool_decide_eq_true. split.
    + intros [_ Hd]. eauto.
    + intros (? & [= <-] & Hd). split; [|done].
      unfold is_directory_at in Hd. by destruct (node_at fs dir).
  - split; [done | by intros (? & ? & _)].
Qed.

Lemma key_directory_exists_ext fs fs' key :
  (∀ q, is_directory_at fs q = is_directory_at fs' q) →
  key_directory_exists this fs key = key_directory_exists this fs' key.
Proof.
  intros Hd. apply eq_true_iff_eq. rewrite !key_directory_exists_spec.
  by setoid_rewrite (resolve_ext fs fs' _ Hd); setoid_rewrite Hd.
Qed.

(** The name under which a document is stored. *)
Lemma file_path_resolves fs key filename dir :
  resolve fs (get_key_directory this key) = Some dir →
  is_directory_at fs dir = true →
  resolve fs (get_file_path this key (ensure_json_extension (sanitize_filename filename)))
  = Some (dir ++ [sanitize_filename filename +:+ ".json"]).
Proof.
  intros Hdir Hd. rewrite ensure_json_extension_sanitized.
  destruct (json_name_component filename) as (? & ? & ? & ?).
  by apply resolve_child.
Qed.

Lemma set_node_set_node q n n' fs : set_node q n (set_node q n' fs) = set_node q n fs.
Proof. unfold set_node. simpl. by rewrite insert_insert_eq. Qed.

Lemma child_not_root dir name : dir ++ [name] ≠ [].
Proof. by destruct dir. Qed.

Lemma ofstream_write_ok fs file s fs' :
  ofstream_write fs file s = (false, fs') → fs' = set_node file (RegularFile s) fs.
Proof. unfold ofstream_write. case_bool_decide; congruence. Qed.

Lemma ofstream_write_cases fs file s b fs' :
  ofstream_write fs file s = (b, fs') →
  fs' = fs ∨ fs' = set_node file (RegularFile s) fs.
Proof. unfold ofstream_write. case_bool_decide; intros [= _ <-]; auto. Qed.

(** What a successful [put_json] has checked and done. *)
Lemma put_json_value_inv fs key filename document fs' :
  put_json this fs key filename document = (value tt, fs') →
  ∃ dir json_string,
    key ≠ "" ∧
    resolve fs (get_key_directory this key) = Some dir ∧
    is_directory_at fs dir = true ∧
    sanitize_filename filename ≠ "" ∧
    dump document = Some json_string ∧
    size json_string ≤ MAX_JSON_SIZE_BYTES ∧
    is_directory_at fs (dir ++ [sanitize_filename filename +:+ ".json"]) = false ∧
    fs' = set_node (dir ++ [sanitize_filename filename +:+ ".json"])
            (RegularFile json_string) fs.
Proof.
  unfold put_json. destruct (empty key) eqn:Hkey; [done|].
  destruct (key_directory_exists this fs key) eqn:Hk; [|done].
  apply key_directory_exists_spec in Hk as (dir & Hdir & Hd).
  destruct (empty (sanitize_filename filename)) eqn:Hs; [done|]. simpl.
  destruct (dump document) as [json_string|]; [|done].
  destruct (MAX_JSON_SIZE_BYTES <? size json_string) eqn:Hsize; [done|].
  unfold ofstream_open. rewrite (file_path_resolves fs key filename dir) by done.
  case_bool_decide; [done|].
  set (target := dir ++ [_]).
  intros Hput. exists dir, json_string.
  apply empty_false in Hkey, Hs. apply N.ltb_ge in Hsize.
  destruct (node_at fs target) as [[content| |]|] eqn:Hn; try done;
    destruct (ofstream_write _ _ _) as [[] fs2] eqn:Hwrite; simplify_eq;
    apply ofstream_write_ok in Hwrite; rewrite set_node_set_node in Hwrite;
    repeat split; try done; unfold is_directory_at; fold target; by rewrite Hn.
Qed.

(** When every check passes and the operating system refuses nothing,
    [put_json] succeeds and leaves the serialized document in the file. *)
Lemma put_json_stores fs key filename document dir json_string :
  key ≠ "" →
  resolve fs (get_key_directory this key) = Some dir →
  is_directory_at fs dir = true →
  sanitize_filename filename ≠ "" →
  dump document = Some json_string →
  size json_string ≤ MAX_JSON_SIZE_BYTES →
  io_succeeds fs (get_file_path this key (ensure_json_extension (sanitize_filename filename)))
  = true →
  put_json this fs key filename document
  = (value tt, set_node (dir ++ [sanitize_filename filename +:+ ".json"])
                 (RegularFile json_string) fs).
Proof.
  intros Hkey Hdir Hd Hs Hdump Hsize Hio. unfold put_json.
  apply empty_false in Hkey, Hs. apply N.ltb_ge in Hsize.
  assert (key_directory_exists this fs key = true) as Hk
    by (apply key_directory_exists_spec; eauto).
  rewrite Hkey, Hk, Hs, Hdump, Hsize. simpl.
  unfold io_succeeds, ofstream_open, ofstream_write in *.
  rewrite (file_path_resolves fs key filename dir) in * by done.
  rewrite !andb_true_iff, !bool_decide_eq_true in Hio.
  destruct Hio as [[[Ho Hw] _] Hn].
  rewrite bool_decide_eq_false_2 by done.
  destruct (node_at fs _) as [[content| |]|]; try done; simpl;
    by rewrite bool_decide_eq_false_2, set_node_set_node.
Qed.

(** Storing a document changes no directory. *)
Lemma put_json_directories fs key filename document result fs' :
  put_json this fs key filename document = (result, fs') →
  ∀ q, is_directory_at fs q = is_directory_at fs' q.
Proof.
  unfold put_json. intros Hput q. revert Hput.
  destruct (empty key); [by intros [= _ <-]|].
  destruct (key_directory_exists this fs key) eqn:Hk; [|by intros [= _ <-]].
  apply key_directory_exists_spec in Hk as (dir & Hdir & Hd).
  destruct (empty (sanitize_filename filename)); [by intros [= _ <-]|]. simpl.
  destruct (dump document) as [json_string|]; [|by intros [= _ <-]].
  destruct (MAX_JSON_SIZE_BYTES <? size json_string); [by intros [= _ <-]|].
  unfold ofstream_open.
  rewrite (file_path_resolves fs key filename dir) by done.
  case_bool_decide; [by intros [= _ <-]|].
  set (target := dir ++ [_]).
  pose proof (child_not_root dir (sanitize_filename filename +:+ ".json")) as Hroot.
  fold target in Hroot.
  assert (is_directory_at fs target = false → ∀ content,
          is_directory_at fs q
          = is_directory_at (set_node target (RegularFile content) fs) q) as Hset.
  { intros Hnd content. by rewrite is_directory_at_set_file. }
  destruct (node_at fs target) as [[content| |]|] eqn:Hn;
    [ | by intros [= _ <-] | by intros [= _ <-] | ];
    (assert (is_directory_at fs target = false) as Hnd
       by (unfold is_directory_at; by rewrite Hn));
    destruct (ofstream_write _ _ _) as [b fs2] eqn:Hw;
    apply ofstream_write_cases in Hw as [-> | ->]; rewrite ?set_node_set_node;
    destruct b; intros [= _ <-]; by apply Hset.
Qed.

Lemma io_succeeds_spec fs p q :
  resolve fs p = Some q → io_succeeds fs p = true →
  ((OpenForWriting, q) ∉ refused fs) ∧ ((Writing, q) ∉ refused fs) ∧
  ((OpenForReading, q) ∉ refused fs) ∧ is_directory_at fs q = false.
Proof.
  unfold io_succeeds, is_directory_at. intros ->.
  rewrite !andb_true_iff, !bool_decide_eq_true. intros [[[? ?] ?] Hn].
  repeat split; try done. by destruct (node_at fs q) as [[]|].
Qed.

(** Reading back the file that a successful [put_json] has left. *)
Lemma get_json_reads fs key filename dir content :
  key ≠ "" → filename ≠ "" →
  resolve fs (get_key_directory this key) = Some dir →
  is_directory_at fs dir = true →
  nodes fs !! (dir ++ [sanitize_filename filename +:+ ".json"])
  = Some (RegularFile content) →
  (OpenForReading, dir ++ [sanitize_filename filename +:+ ".json"]) ∉ refused fs →
  get_json this fs key filename =
    if MAX_JSON_SIZE_BYTES <? size content then unexpected FileTooLarge
    else match parse content with
         | inr document => value document
         | inl (parse_error _) => unexpected InvalidJson
         | inl (std_exception _) => unexpected IoError
         end.
Proof.
  intros Hkey Hfilename Hdir Hd Hnode Hread. unfold get_json.
  apply empty_false in Hkey, Hfilename.
  assert (key_directory_exists this fs key = true) as Hk
    by (apply key_directory_exists_spec; eauto).
  rewrite Hkey, Hfilename, Hk. simpl.
  unfold fs_exists, ifstream_open.
  rewrite (file_path_resolves fs key filename dir) by done.
  assert (node_at fs (dir ++ [sanitize_filename filename +:+ ".json"])
          = Some (RegularFile content)) as ->.
  { by destruct dir. }
  rewrite bool_decide_eq_true_2 by eauto. simpl.
  by rewrite bool_decide_eq_false_2.
Qed.


(** C10. Whenever [put_json] returns [KeyDirectoryNotFound],
    [InvalidFilename], [FileTooLarge] or [JsonEncodingError], the file system
    is exactly what it was: every one of these checks comes before the output
    file is opened. *)
Theorem put_json_error_leaves_disk fs key filename document error fs' :
  put_json this fs key filename document = (unexpected error, fs') →
  error = KeyDirectoryNotFound ∨ error = InvalidFilename ∨
  error = FileTooLarge ∨ error = JsonEncodingError →
  fs' = fs.
Proof.
  unfold put_json.
  destruct (empty key); [by intros [= _ <-]|].
  destruct (negb _); [by intros [= _ <-]|].
  destruct (empty (sanitize_filename filename)); [by intros [= _ <-]|]. simpl.
  destruct (dump document) as [json_string|]; [|by intros [= _ <-]].
  destruct (MAX_JSON_SIZE_BYTES <? size json_string); [by intros [= _ <-]|].
  destruct (ofstream_open _ _) as [[file fs1]|]; [|by intros [= _ <-]].
  destruct (ofstream_write _ _ _) as [[] fs2]; [|done].
  intros [= <- _] [?|[?|[?|?]]]; done.
Qed.

End FileManagerFacts.



Lemma put_json_error_leaves_disk_witness :
  put_json example_manager example_fs "nosuchkey" "a" example_document
  = (unexpected KeyDirectoryNotFound, example_fs).
Proof.
  assert (∃ fs', put_json example_manager example_fs "nosuchkey" "a" example_document
                 = (unexpected KeyDirectoryNotFound, fs')) as [fs' Hput].
  { eexists. by vm_compute. }
  rewrite Hput. f_equal.
  apply (put_json_error_leaves_disk example_manager example_fs "nosuchkey" "a"
           example_document KeyDirectoryNotFound fs' Hput). by left.
Defined.

(** ** The size limit and the filename checks of the store *)

Section StoreChecks.

Context {F : Type} `{!JsonLibrary F}.
Variable this : FileManager.

Implicit Types (fs : filesystem) (key filename : string) (document : json F).

Lemma put_json_empty_key fs filename document :
  put_json this fs "" filename document = (unexpected InvalidFilename, fs).
Proof. done. Qed.

Lemma get_json_empty_key fs filename :
  get_json this fs "" filename = unexpected InvalidFilename.
Proof. done. Qed.

Lemma list_files_empty_key fs : list_files this fs "" = unexpected InvalidFilename.
Proof. done. Qed.

Lemma put_json_unsanitizable fs key filename document :
  key ≠ "" → key_directory_exists this fs key = true →
  sanitize_filename filename = "" →
  put_json this fs key filename document = (unexpected InvalidFilename, fs).
Proof.
  intros Hkey Hk Hs. unfold put_json. apply empty_false in Hkey.
  by rewrite Hkey, Hk, Hs.
Qed.

(** [get_json] has no check on the sanitized name: a filename that
    sanitizes to nothing is looked up as the file [.json]. *)
Lemma get_json_unsanitizable fs key filename dir :
  key ≠ "" → filename ≠ "" →
  resolve fs (get_key_directory this key) = Some dir →
  is_directory_at fs dir = true →
  sanitize_filename filename = "" →
  nodes fs !! (dir ++ [".json"]) = None →
  get_json this fs key filename = unexpected FileNotFound.
Proof.
  intros Hkey Hfilename Hdir Hd Hs Hnone. unfold get_json.
  apply empty_false in Hkey, Hfilename.
  assert (key_directory_exists this fs key = true) as Hk
    by (apply key_directory_exists_spec; eauto).
  rewrite Hkey, Hfilename, Hk. simpl. unfold fs_exists.
  rewrite (file_path_resolves this fs key filename dir), Hs by done.
  change ("" +:+ ".json") with ".json".
  assert (node_at fs (dir ++ [".json"]) = None) as -> by (by destruct dir).
  rewrite bool_decide_eq_false_2; [done|]. by intros [? ?].
Qed.

Lemma put_json_size_check fs key filename document json_string :
  key ≠ "" → key_directory_exists this fs key = true →
  sanitize_filename filename ≠ "" → dump document = Some json_string →
  (put_json this fs key filename document).1 = unexpected FileTooLarge
  ↔ MAX_JSON_SIZE_BYTES < size json_string.
Proof.
  intros Hkey Hk Hs Hdump. unfold put_json. apply empty_false in Hkey, Hs.
  rewrite Hkey, Hk, Hs, Hdump. simpl. rewrite <- N.ltb_lt.
  destruct (_ <? _); [done|]. split; [|done].
  destruct (ofstream_open _ _) as [[file fs1]|]; [|done].
  by destruct (ofstream_write _ _ _) as [[] fs2].
Qed.

Lemma put_json_too_large_inv fs key filename document :
  (put_json this fs key filename document).1 = unexpected FileTooLarge →
  ∃ json_string, dump document = Some json_string ∧
                 MAX_JSON_SIZE_BYTES < size json_string.
Proof.
  unfold put_json. destruct (empty key); [done|]. destruct (negb _); [done|].
  destruct (empty (sanitize_filename filename)); [done|]. simpl.
  destruct (dump document) as [json_string|]; [|done].
  destruct (_ <? _) eqn:Hsize; [apply N.ltb_lt in Hsize; eauto|].
  destruct (ofstream_open _ _) as [[file fs1]|]; [|done].
  by destruct (ofstream_write _ _ _) as [[] fs2].
Qed.

Lemma ifstream_open_exists fs p content :
  ifstream_open fs p = Some content → fs_exists fs p = true.
Proof.
  unfold ifstream_open, fs_exists. destruct (resolve fs p) as [q|]; [|done].
  case_bool_decide; [done|]. destruct (node_at fs q) as [[]|]; [|done..].
  intros _. apply bool_decide_eq_true. eauto.
Qed.

Lemma get_json_size_check fs key filename content :
  key ≠ "" → filename ≠ "" → key_directory_exists this fs key = true →
  ifstream_open fs
    (get_file_path this key (ensure_json_extension (sanitize_filename filename)))
  = Some content →
  get_json this fs key filename = unexpected FileTooLarge
  ↔ MAX_JSON_SIZE_BYTES < size content.
Proof.
  intros Hkey Hfilename Hk Hopen. unfold get_json.
  apply empty_false in Hkey, Hfilename.
  rewrite Hkey, Hfilename, Hk, (ifstream_open_exists _ _ _ Hopen), Hopen. simpl.
  rewrite <- N.ltb_lt. destruct (_ <? _); [done|]. split; [|done].
  by destruct (parse content) as [[]|].
Qed.

Lemma get_json_too_large_inv fs key filename :
  get_json this fs key filename = unexpected FileTooLarge →
  ∃ content,
    ifstream_open fs
      (get_file_path this key (ensure_json_extension (sanitize_filename filename)))
    = Some content ∧
    MAX_JSON_SIZE_BYTES < size content.
Proof.
  unfold get_json. destruct (_ || _); [done|]. destruct (negb _); [done|].
  destruct (negb _); [done|].
  destruct (ifstream_open _ _) as [content|]; [|done].
  destruct (_ <? _) eqn:Hsize; [apply N.ltb_lt in Hsize; eauto|].
  by destruct (parse content) as [[]|].
Qed.

(** C6, as amended. Once the checks that come first have passed (the key
    is not empty, its directory exists, the sanitized filename is not empty,
    serialization succeeds), [put_json] returns [FileTooLarge] exactly when
    the serialization is strictly longer than 1 MiB, so that a document of
    exactly 1 MiB is stored; in every case, [FileTooLarge] from [put_json]
    means the serialization exceeds 1 MiB. In the same way, once [get_json]
    has read the content of the file, it returns [FileTooLarge] exactly when
    that content is strictly longer than 1 MiB, and [FileTooLarge] from
    [get_json] always means that such a content was read. *)
Theorem file_too_large_iff_checked fs key filename document :
  (∀ json_string,
     key ≠ "" → key_directory_exists this fs key = true →
     sanitize_filename filename ≠ "" → dump document = Some json_string →
     ((put_json this fs key filename document).1 = unexpected FileTooLarge
      ↔ MAX_JSON_SIZE_BYTES < size json_string) ∧
     (size json_string = MAX_JSON_SIZE_BYTES →
      io_succeeds fs
        (get_file_path this key (ensure_json_extension (sanitize_filename filename)))
      = true →
      (put_json this fs key filename document).1 = value tt)) ∧
  ((put_json this fs key filename document).1 = unexpected FileTooLarge →
   ∃ json_string, dump document = Some json_string ∧
                  MAX_JSON_SIZE_BYTES < size json_string) ∧
  (∀ content,
     key ≠ "" → filename ≠ "" → key_directory_exists this fs key = true →
     ifstream_open fs
       (get_file_path this key (ensure_json_extension (sanitize_filename filename)))
     = Some content →
     (get_json this fs key filename = unexpected FileTooLarge
      ↔ MAX_JSON_SIZE_BYTES < size content)) ∧
  (get_json this fs key filename = unexpected FileTooLarge →
   ∃ content,
     ifstream_open fs
       (get_file_path this key (ensure_json_extension (sanitize_filename filename)))
     = Some content ∧
     MAX_JSON_SIZE_BYTES < size content).
Proof.
  split; [|split; [|split]].
  - intros json_string Hkey Hk Hs Hdump. split; [by apply put_json_size_check|].
    intros Hsize Hio. apply key_directory_exists_spec in Hk as (dir & Hdir & Hd).
    rewrite (put_json_stores this fs key filename document dir json_string); try done.
    lia.
  - apply put_json_too_large_inv.
  - intros content. apply get_json_size_check.
  - apply get_json_too_large_inv.
Qed.

End StoreChecks.

(** ** The checks on concrete requests *)

Lemma size_cons c s : size (String c s) = 1 + size s.
Proof. unfold size. simpl String.length. lia. Qed.

Lemma size_quoted s : size (quoted s) = size s + 2.
Proof. unfold quoted. rewrite size_app, !size_cons. change (size "") with 0. lia. Qed.

Lemma fill_succ n c : fill (N.succ n) c = String c (fill n c).
Proof. unfold fill. by rewrite N.iter_succ. Qed.

Lemma dump_chars_fill n : MiniJson.dump_chars (fill n "a") = Some (fill n "a").
Proof.
  induction n as [|n IH] using N.peano_ind; [done|].
  rewrite fill_succ. simpl MiniJson.dump_chars. rewrite IH.
  by change (MiniJson.escape_char "a") with (Some "a").
Qed.

Lemma dump_string_document n :
  dump (string_document n) = Some (quoted (fill n "a")).
Proof.
  change (dump (string_document n)) with (MiniJson.dump_string (fill n "a")).
  unfold MiniJson.dump_string. by rewrite dump_chars_fill.
Qed.

(** The claim C6 as it is written fails for the empty key: a document
    whose serialization exceeds 1 MiB is answered with [InvalidFilename]. *)
Lemma file_too_large_iff_counterexample :
  ¬ ((put_json example_manager example_fs "" "a"
        (string_document (MAX_JSON_SIZE_BYTES + 1))).1 = unexpected FileTooLarge
     ↔ ∃ json_string,
         dump (string_document (MAX_JSON_SIZE_BYTES + 1)) = Some json_string ∧
         MAX_JSON_SIZE_BYTES < size json_string).
Proof.
  intros [_ Hif].
  rewrite put_json_empty_key in Hif. cbn [fst] in Hif.
  assert (unexpected (T := ()) InvalidFilename = unexpected FileTooLarge) as Heq; [|done].
  apply Hif. eexists. split; [apply dump_string_document|].
  rewrite size_quoted, size_fill. lia.
Qed.

Lemma file_too_large_iff_checked_witness :
  (put_json example_manager example_fs "k" "a" example_document).1
  = unexpected FileTooLarge
  ↔ MAX_JSON_SIZE_BYTES < size (default "" (dump example_document)).
Proof.
  destruct (file_too_large_iff_checked example_manager example_fs "k" "a"
              example_document) as [Hput _].
  apply (Hput (default "" (dump example_document))); by vm_compute.
Defined.

(** A document that serializes to exactly 1 MiB is stored. *)
Lemma put_json_exactly_one_mebibyte :
  size (quoted (fill (MAX_JSON_SIZE_BYTES - 2) "a")) = 1048576 ∧
  (put_json example_manager example_fs "k" "a"
     (string_document (MAX_JSON_SIZE_BYTES - 2))).1 = value tt.
Proof.
  assert (size (quoted (fill (MAX_JSON_SIZE_BYTES - 2) "a")) = 1048576) as Hsize.
  { rewrite size_quoted, size_fill. by vm_compute. }
  split; [exact Hsize|].
  assert (size (quoted (fill (MAX_JSON_SIZE_BYTES - 2) "a")) ≤ MAX_JSON_SIZE_BYTES)
    as Hle by (rewrite Hsize; by vm_compute).
  assert (resolve example_fs (get_key_directory example_manager "k")
          = Some ["data"; "k"]) as Hdir by (by vm_compute).
  assert (is_directory_at example_fs ["data"; "k"] = true) as Hd by (by vm_compute).
  assert (sanitize_filename "a" ≠ "") as Hs by (by vm_compute).
  assert (io_succeeds example_fs
            (get_file_path example_manager "k"
               (ensure_json_extension (sanitize_filename "a"))) = true)
    as Hio by (by vm_compute).
  assert ("k" ≠ "") as Hkey by discriminate.
  pose proof (put_json_stores example_manager example_fs "k" "a"
                (string_document (MAX_JSON_SIZE_BYTES - 2)) ["data"; "k"]
                (quoted (fill (MAX_JSON_SIZE_BYTES - 2) "a"))
                Hkey Hdir Hd Hs (dump_string_document _) Hle Hio) as Hput.
  exact (f_equal fst Hput).
Qed.

(** C4. At a filename that sanitizes to the empty string, [put_json]
    answers [InvalidFilename], as the claim says, but [get_json] does not: it
    looks for the file [.json] of the key directory, answers [FileNotFound]
    when there is none, and returns its content when there is one. *)
Theorem get_json_unsanitizable_filename :
  sanitize_filename "!!!" = "" ∧
  (put_json example_manager example_fs "k" "!!!" example_document).1
  = unexpected InvalidFilename ∧
  get_json (F := Empty_set) example_manager example_fs "k" "!!!"
  = unexpected FileNotFound ∧
  get_json (F := Empty_set) example_manager example_fs_hidden "k" "!!!"
  = value (JUnsigned 1).
Proof. repeat split; by vm_compute. Qed.

(** ** The handlers *)

Section ApiHandlerFacts.

Context {F : Type} `{!JsonLibrary F}.
Variable this : ApiHandler.

Implicit Types (fs : filesystem) (request_body : string).
Implicit Types (members : list (string * json F)).

(** A request object with a string under [k] passes the check on [k]. *)
Lemma missing_or_not_string_string members k s :
  find_member k members = Some (JString s) →
  missing_or_not_string (JObject members) k = inr false.
Proof. intros Hk. unfold missing_or_not_string. simpl. by rewrite Hk. Qed.

Lemma index_member members k v :
  find_member k members = Some v → index (JObject members) k = inr v.
Proof. intros Hk. simpl. by rewrite Hk. Qed.

(** With well-typed fields, [handle_put] is [put_json] followed by the
    mapping of its result; neither [catch] clause is entered. *)
Lemma handle_put_dispatch fs request_body members key filename document :
  parse request_body = inr (JObject members) →
  find_member "key" members = Some (JString key) →
  find_member "filename" members = Some (JString filename) →
  find_member "data" members = Some document →
  handle_put this fs request_body =
    match put_json (file_manager_ this) fs key filename document with
    | (unexpected error, fs') => (file_error_to_api_result error, fs')
    | (value _, fs') => (api_result Ok "success" None, fs')
    end.
Proof.
  intros Hparse Hkey Hfilename Hdata. unfold handle_put. rewrite Hparse.
  rewrite (missing_or_not_string_string _ _ _ Hkey),
    (missing_or_not_string_string _ _ _ Hfilename).
  rewrite (index_member _ _ _ Hkey), (index_member _ _ _ Hfilename),
    (index_member _ _ _ Hdata).
  unfold contains. rewrite Hdata, bool_decide_eq_true_2 by eauto. simpl.
  by destruct (put_json _ _ _ _ _) as [[] ?].
Qed.

Lemma handle_get_dispatch fs request_body members key filename :
  parse request_body = inr (JObject members) →
  find_member "key" members = Some (JString key) →
  find_member "filename" members = Some (JString filename) →
  handle_get this fs request_body =
    match get_json (file_manager_ this) fs key filename with
    | unexpected error => file_error_to_api_result error
    | value document =>
        api_result Ok "success" (Some (JObject [("data", document)]))
    end.
Proof.
  intros Hparse Hkey Hfilename. unfold handle_get. rewrite Hparse.
  rewrite (missing_or_not_string_string _ _ _ Hkey),
    (missing_or_not_string_string _ _ _ Hfilename).
  rewrite (index_member _ _ _ Hkey), (index_member _ _ _ Hfilename). simpl.
  by destruct (get_json _ _ _ _).
Qed.

Lemma handle_list_dispatch fs request_body members key :
  parse request_body = inr (JObject members) →
  find_member "key" members = Some (JString key) →
  handle_list this fs request_body =
    match list_files (file_manager_ this) fs key with
    | unexpected error => file_error_to_api_result (F := F) error
    | value files =>
        api_result Ok "success" (Some (JObject [("files", JArray (JString <$> files))]))
    end.
Proof.
  intros Hparse Hkey. unfold handle_list. rewrite Hparse.
  rewrite (missing_or_not_string_string _ _ _ Hkey), (index_member _ _ _ Hkey). simpl.
  by destruct (list_files _ _ _).
Qed.

(** C9. For the empty key the three operations of the store return
    [InvalidFilename], whatever the file system holds and without changing
    it; a request whose ["key"] field is the empty string passes the
    handlers' type checks and is answered with status 400 and the message
    "Invalid filename". *)
Theorem empty_key_invalid_filename fs :
  (∀ filename (document : json F),
     put_json (file_manager_ this) fs "" filename document
     = (unexpected InvalidFilename, fs)) ∧
  (∀ filename,
     get_json (F := F) (file_manager_ this) fs "" filename = unexpected InvalidFilename) ∧
  list_files (file_manager_ this) fs "" = unexpected InvalidFilename ∧
  status_to_int BadRequest = 400 ∧
  (∀ request_body members filename document,
     parse request_body = inr (JObject members) →
     find_member "key" members = Some (JString "") →
     find_member "filename" members = Some (JString filename) →
     find_member "data" members = Some document →
     handle_put this fs request_body
     = (api_result BadRequest "Invalid filename" None, fs)) ∧
  (∀ request_body members filename,
     parse request_body = inr (JObject members) →
     find_member "key" members = Some (JString "") →
     find_member "filename" members = Some (JString filename) →
     handle_get this fs request_body = api_result BadRequest "Invalid filename" None) ∧
  (∀ request_body members,
     parse request_body = inr (JObject members) →
     find_member "key" members = Some (JString "") →
     handle_list this fs request_body = api_result BadRequest "Invalid filename" None).
Proof.
  repeat split; try done.
  - intros request_body members filename document Hparse Hkey Hfilename Hdata.
    by rewrite (handle_put_dispatch fs request_body members "" filename document).
  - intros request_body members filename Hparse Hkey Hfilename.
    by rewrite (handle_get_dispatch fs request_body members "" filename).
  - intros request_body members Hparse Hkey.
    by rewrite (handle_list_dispatch fs request_body members "").
Qed.

End ApiHandlerFacts.

Lemma empty_key_invalid_filename_witness :
  parse (example_body "" "a" "[1]")
  = inr (JObject [("data", JArray [JUnsigned 1]); ("filename", JString "a");
                  ("key", JString "")]) ∧
  handle_put example_handler example_fs (example_body "" "a" "[1]")
  = (api_result (F := Empty_set) BadRequest "Invalid filename" None, example_fs) ∧
  handle_get example_handler example_fs (example_body "" "a" "[1]")
  = api_result (F := Empty_set) BadRequest "Invalid filename" None ∧
  handle_list example_handler example_fs (example_body "" "a" "[1]")
  = api_result (F := Empty_set) BadRequest "Invalid filename" None.
Proof.
  destruct (empty_key_invalid_filename (F := Empty_set) example_handler example_fs)
    as (_ & _ & _ & _ & Hput & Hget & Hlist).
  split; [by vm_compute|]. split; [|split].
  - eapply Hput; by vm_compute.
  - eapply Hget; by vm_compute.
  - eapply Hlist; by vm_compute.
Defined.

(** ** Listing *)

Section Listing.

Context {F : Type} `{!JsonLibrary F}.
Variable this : FileManager.

Implicit Types (fs : filesystem) (key name : string) (dir q : list string).
Implicit Types (entries : list (string * node)) (files : list string).

Lemma child_name_spec dir q name : child_name dir q = Some name ↔ q = dir ++ [name].
Proof.
  unfold child_name. split.
  - destruct (last q) as [name'|]; [|done]. case_bool_decide; [|done]. congruence.
  - intros ->. rewrite last_snoc. by rewrite bool_decide_eq_true_2.
Qed.

Lemma NoDup_omap_inj {A B} (f : A → option B) (l : list A) :
  (∀ x x' y, f x = Some y → f x' = Some y → x = x') →
  NoDup l → NoDup (omap f l).
Proof.
  intros Hinj. induction 1 as [|x l Hx Hl IH]; simpl; [constructor|].
  destruct (f x) as [y|] eqn:Hy; [|done]. constructor; [|done].
  rewrite list_elem_of_omap. intros (x' & Hx' & Hy').
  by rewrite (Hinj _ _ _ Hy Hy') in Hx.
Qed.

(** The enumeration gives every entry of the directory, once. *)
Lemma directory_iterator_spec fs p dir entries :
  resolve fs p = Some dir → directory_iterator fs p = Some entries →
  (∀ name n, (name, n) ∈ entries ↔ nodes fs !! (dir ++ [name]) = Some n) ∧
  NoDup entries.*1.
Proof.
  unfold directory_iterator. intros ->. destruct (_ && _); [|done].
  intros [= <-]. split.
  - intros name n. rewrite list_elem_of_omap. split.
    + intros ([q n'] & Hin & Hf). apply elem_of_map_to_list in Hin. simpl in Hf.
      destruct (child_name dir q) as [name'|] eqn:Hc; simplify_eq/=.
      by apply child_name_spec in Hc as ->.
    + intros Hn. exists (dir ++ [name], n). split; [by apply elem_of_map_to_list|].
      simpl. by rewrite (proj2 (child_name_spec dir _ name) eq_refl).
  - rewrite list_fmap_omap.
    rewrite (list_omap_ext _ (λ q, child_name dir q) _ (map_to_list (nodes fs)).*1).
    + apply NoDup_omap_inj; [|apply NoDup_fst_map_to_list].
      intros q q' name Hq Hq'. apply child_name_spec in Hq, Hq'. congruence.
    + induction (map_to_list (nodes fs)) as [|[q n] l IH]; constructor; [|done].
      simpl. by destruct (child_name dir q).
Qed.

(** The loop of [list_files] keeps the names of the regular files that
    pass the [.json] test, in the order of the enumeration. *)
Lemma collect_step_filter entries files :
  fold_left collect_step entries files = files ++ (filter listed entries).*1.
Proof.
  revert files. induction entries as [|[name n] entries IH]; intros files.
  - by rewrite app_nil_r.
  - simpl fold_left. rewrite IH. unfold collect_step. simpl.
    destruct (is_regular_file n) eqn:Hr, (has_json_extension name) eqn:Hj.
    + rewrite filter_cons_True by (by split). simpl. by rewrite <- app_assoc.
    + rewrite filter_cons_False; [done|]. intros [_ Hl]. simpl in Hl. congruence.
    + rewrite filter_cons_False; [done|]. intros [Hl _]. simpl in Hl. congruence.
    + rewrite filter_cons_False; [done|]. intros [Hl _]. simpl in Hl. congruence.
Qed.

Lemma std_sort_sorted files : StronglySorted String.le (std_sort files).
Proof. apply StronglySorted_merge_sort; apply _. Qed.

Lemma std_sort_elem_of files name : name ∈ std_sort files ↔ name ∈ files.
Proof. unfold std_sort. by rewrite merge_sort_Permutation. Qed.

(** A list in ascending order is determined by its elements. *)
Lemma sorted_unique files files' :
  StronglySorted String.le files → StronglySorted String.le files' →
  NoDup files → NoDup files' → (∀ name, name ∈ files ↔ name ∈ files') →
  files = files'.
Proof.
  intros Hs Hs' Hn Hn' Hin. apply (StronglySorted_unique String.le); try done.
  by apply NoDup_Permutation.
Qed.

(** The order in which the operating system enumerates the directory has
    no influence on the result. *)
Lemma list_files_order entries entries' :
  entries ≡ₚ entries' →
  std_sort (fold_left collect_step entries [])
  = std_sort (fold_left collect_step entries' []).
Proof.
  intros Hp. rewrite !collect_step_filter. simpl.
  apply (StronglySorted_unique String.le); try apply std_sort_sorted.
  unfold std_sort. by rewrite !merge_sort_Permutation, Hp.
Qed.

(** What [list_files] returns when it returns a list. *)
Lemma list_files_value_inv fs key files :
  list_files this fs key = value files →
  ∃ dir,
    key ≠ "" ∧
    resolve fs (get_key_directory this key) = Some dir ∧
    is_directory_at fs dir = true ∧
    ((Enumerating, dir) ∉ refused fs) ∧
    StronglySorted String.le files ∧ NoDup files ∧
    (∀ name, name ∈ files ↔ json_file_in fs dir name).
Proof.
  unfold list_files. destruct (empty key) eqn:Hkey; [done|].
  destruct (key_directory_exists this fs key) eqn:Hk; [|done]. simpl.
  apply key_directory_exists_spec in Hk as (dir & Hdir & Hd).
  destruct (directory_iterator fs _) as [entries|] eqn:Hentries; [|done].
  intros [= <-]. exists dir.
  destruct (directory_iterator_spec _ _ _ _ Hdir Hentries) as [Hin Hnodup].
  apply empty_false in Hkey.
  split; [done|]. split; [done|]. split; [done|]. split; [|split; [|split]].
  - unfold directory_iterator in Hentries. rewrite Hdir, Hd in Hentries. simpl in Hentries.
    by case_bool_decide.
  - apply std_sort_sorted.
  - unfold std_sort. rewrite merge_sort_Permutation, collect_step_filter. simpl.
    apply NoDup_fmap_fst; [|by apply NoDup_filter, (NoDup_fmap_1 fst)].
    intros name n n' [_ Hn]%list_elem_of_filter [_ Hn']%list_elem_of_filter.
    apply Hin in Hn, Hn'. congruence.
  - intros name. rewrite std_sort_elem_of, collect_step_filter. simpl.
    rewrite list_elem_of_fmap. split.
    + intros ([name' n] & -> & Hl%list_elem_of_filter).
      destruct Hl as [[Hr Hj] Hl]. simpl in *. split.
      * destruct n; try done. apply Hin in Hl. eauto.
      * by apply has_json_extension_spec.
    + intros [[content Hc] Hj]. exists (name, RegularFile content). split; [done|].
      apply list_elem_of_filter. split; [|by apply Hin].
      split; [done|]. by apply has_json_extension_spec.
Qed.

(** [list_files] returns a list as soon as the key is not empty, its
    directory exists and the enumeration is not refused. *)
Lemma list_files_total fs key dir :
  key ≠ "" → resolve fs (get_key_directory this key) = Some dir →
  is_directory_at fs dir = true → (Enumerating, dir) ∉ refused fs →
  ∃ files, list_files this fs key = value files.
Proof.
  intros Hkey Hdir Hd Hen. unfold list_files. apply empty_false in Hkey.
  assert (key_directory_exists this fs key = true) as Hk
    by (apply key_directory_exists_spec; eauto).
  rewrite Hkey, Hk. simpl. unfold directory_iterator.
  rewrite Hdir, Hd, bool_decide_eq_false_2 by done. simpl. eauto.
Qed.

Lemma json_file_in_set_file fs dir name' content name :
  (∃ stem, name' = stem +:+ ".json") →
  json_file_in (set_node (dir ++ [name']) (RegularFile content) fs) dir name
  ↔ name = name' ∨ json_file_in fs dir name.
Proof.
  intros Hj. unfold json_file_in, set_node. simpl. rewrite lookup_insert.
  destruct (decide (dir ++ [name'] = dir ++ [name])) as [Heq|Hne].
  - apply app_inv_head in Heq as [= ->]. split; [auto|]. intros _. eauto.
  - split; [auto|]. intros [->|?]; [done | auto].
Qed.

(** A successful [put_json] adds the name of its file to the listing. *)
Lemma list_files_after_put fs key filename document fs' files :
  list_files this fs key = value files →
  put_json this fs key filename document = (value tt, fs') →
  ∃ files',
    list_files this fs' key = value files' ∧
    ∀ name, name ∈ files' ↔ name = sanitize_filename filename +:+ ".json" ∨ name ∈ files.
Proof.
  intros Hlist Hput.
  apply list_files_value_inv in Hlist as (dir & Hkey & Hdir & Hd & Hen & _ & _ & Hin).
  pose proof (put_json_directories this _ _ _ _ _ _ Hput) as Hsame.
  apply put_json_value_inv in Hput as (dir' & s & _ & Hdir' & _ & _ & _ & _ & _ & Hfs').
  assert (dir' = dir) as -> by congruence.
  destruct (list_files_total fs' key dir) as [files' Hlist'].
  - done.
  - by rewrite <- (resolve_ext fs _ _ Hsame).
  - by rewrite <- Hsame.
  - by subst fs'.
  - exists files'. split; [done|]. intros name.
    apply list_files_value_inv in Hlist' as (dir' & _ & Hdir'' & _ & _ & _ & _ & Hin').
    rewrite <- (resolve_ext fs _ _ Hsame) in Hdir''.
    assert (dir' = dir) as -> by congruence.
    rewrite Hin', Hin. subst fs'. apply json_file_in_set_file. eauto.
Qed.

(** C5. For a non-empty key whose directory exists, and unless the
    operating system refuses the enumeration, [list_files] returns the names
    of the regular files of that directory that end in [.json], each once, in
    ascending byte order. After [put_json] of the filenames "b", "a" and "c"
    into a key that listed nothing, it returns a.json, b.json, c.json. The
    result does not depend on the order in which the directory is enumerated,
    so that calls on an unchanged directory return the same sequence. *)
Theorem list_files_sorted_json_names fs key :
  (key ≠ "" → key_directory_exists this fs key = true →
   ∃ dir, resolve fs (get_key_directory this key) = Some dir ∧
     ((Enumerating, dir) ∉ refused fs →
      ∃ files, list_files this fs key = value files ∧
        StronglySorted String.le files ∧ NoDup files ∧
        ∀ name, name ∈ files ↔ json_file_in fs dir name)) ∧
  (∀ (d1 d2 d3 : json F) fs1 fs2 fs3,
     list_files this fs key = value [] →
     put_json this fs key "b" d1 = (value tt, fs1) →
     put_json this fs1 key "a" d2 = (value tt, fs2) →
     put_json this fs2 key "c" d3 = (value tt, fs3) →
     list_files this fs3 key = value ["a.json"; "b.json"; "c.json"]) ∧
  (∀ entries entries',
     entries ≡ₚ entries' →
     std_sort (fold_left collect_step entries [])
     = std_sort (fold_left collect_step entries' [])).
Proof.
  split; [|split].
  - intros Hkey Hk. apply key_directory_exists_spec in Hk as (dir & Hdir & Hd).
    exists dir. split; [done|]. intros Hen.
    destruct (list_files_total fs key dir) as [files Hlist]; try done.
    exists files. split; [done|].
    apply list_files_value_inv in Hlist as (dir' & _ & Hdir' & _ & _ & ? & ? & ?).
    by assert (dir' = dir) as -> by congruence.
  - intros d1 d2 d3 fs1 fs2 fs3 Hlist Hb Ha Hc.
    destruct (list_files_after_put _ _ _ _ _ _ Hlist Hb) as (files1 & Hlist1 & Hin1).
    destruct (list_files_after_put _ _ _ _ _ _ Hlist1 Ha) as (files2 & Hlist2 & Hin2).
    destruct (list_files_after_put _ _ _ _ _ _ Hlist2 Hc) as (files3 & Hlist3 & Hin3).
    rewrite Hlist3. f_equal.
    apply list_files_value_inv in Hlist3 as (_ & _ & _ & _ & _ & Hs & Hn & _).
    apply sorted_unique; try done.
    + by apply (bool_decide_unpack _).
    + by apply (bool_decide_unpack _).
    + intros name. rewrite Hin3, Hin2, Hin1, !elem_of_cons, elem_of_nil.
      change (sanitize_filename "a" +:+ ".json") with "a.json".
      change (sanitize_filename "b" +:+ ".json") with "b.json".
      change (sanitize_filename "c" +:+ ".json") with "c.json". tauto.
  - apply list_files_order.
Qed.

End Listing.

Lemma list_files_sorted_json_names_witness :
  list_files example_manager example_fs "k" = value [] ∧
  list_files example_manager
    (put_json example_manager
       (put_json example_manager
          (put_json example_manager example_fs "k" "b" example_document).2
          "k" "a" example_document).2
       "k" "c" example_document).2 "k"
  = value ["a.json"; "b.json"; "c.json"].
Proof.
  split; [by vm_compute|].
  destruct (list_files_sorted_json_names (F := Empty_set) example_manager example_fs "k")
    as (_ & Hputs & _).
  apply (Hputs example_document example_document example_document
           (put_json example_manager example_fs "k" "b" example_document).2
           (put_json example_manager
              (put_json example_manager example_fs "k" "b" example_document).2
              "k" "a" example_document).2);
    vm_compute; reflexivity.
Defined.

(** ** The ingestion pipeline *)

Section DataServerFacts.

Context {F : Type} `{!JsonLibrary F}.
Variable handler : ApiHandler.

Implicit Types (r : route) (st : request_state) (chunk : string).
Implicit Types (chunks : list string) (error : response).

Lemma too_large_response_inv error :
  too_large_response = Some error →
  status_line error = "413 Payload Too Large" ∧
  headers error = [("Content-Type", "application/json")] ∧
  dump (JObject [("error", JString "Request body too large")]) = Some (body error).
Proof.
  unfold too_large_response. simpl.
  destruct (dump _) as [error_str|]; [|done]. simpl. by intros [= <-].
Qed.

(** The callback on a buffer that ends above the limit: a 413 is written,
    the handler is not called, whether the chunk is the last one or not. *)
Lemma on_data_too_large r st chunk is_last error :
  too_large_response = Some error →
  MAX_REQUEST_SIZE < size (body_buffer st +:+ chunk) →
  on_data handler r st chunk is_last =
    Some {| body_buffer := body_buffer st +:+ chunk;
            written := written st ++ [error];
            handled := handled st; disk := disk st |}.
Proof.
  intros Herror Hsize. unfold on_data. apply N.ltb_lt in Hsize.
  by rewrite Hsize, Herror.
Qed.

(** The callback on a chunk that is not the last and leaves the buffer
    within the limit: the chunk is appended and nothing else happens. *)
Lemma on_data_accumulate r st chunk :
  size (body_buffer st +:+ chunk) ≤ MAX_REQUEST_SIZE →
  on_data handler r st chunk false =
    Some {| body_buffer := body_buffer st +:+ chunk; written := written st;
            handled := handled st; disk := disk st |}.
Proof. intros Hsize. unfold on_data. apply N.ltb_ge in Hsize. by rewrite Hsize. Qed.

Lemma bind_some {A B : Type} (x : A) (f : A → option B) : Some x ≫= f = f x.
Proof. done. Qed.

Lemma deliver_cons r st chunk chunk' chunks :
  deliver handler r st (chunk :: chunk' :: chunks) =
    on_data handler r st chunk false ≫= λ st', deliver handler r st' (chunk' :: chunks).
Proof. done. Qed.

(** Once the buffer is above the limit, every further chunk that reaches
    the callback is appended and answered with one more 413; the handler
    is never called. *)
Lemma deliver_rejected r error chunks :
  too_large_response = Some error →
  ∀ st, MAX_REQUEST_SIZE < size (body_buffer st) →
  deliver handler r st chunks =
    Some {| body_buffer := body_buffer st +:+ concat_chunks chunks;
            written := written st ++ replicate (length chunks) error;
            handled := handled st; disk := disk st |}.
Proof.
  intros Herror. induction chunks as [|chunk chunks IH]; intros st Hsize.
  - simpl. rewrite app_empty_r, app_nil_r. by destruct st.
  - assert (MAX_REQUEST_SIZE < size (body_buffer st +:+ chunk)) as Hsize'.
    { rewrite size_app. lia. }
    destruct chunks as [|chunk' chunks].
    + simpl deliver. rewrite (on_data_too_large _ _ _ _ error) by done.
      simpl. by rewrite app_empty_r.
    + rewrite deliver_cons, (on_data_too_large _ _ _ _ error) by done.
      rewrite bind_some. cbv beta. rewrite IH by done. simpl body_buffer. simpl written.
      f_equal. f_equal.
      * by rewrite app_assoc_string.
      * by rewrite <- app_assoc.
Qed.

Lemma deliver_oversized r error chunks :
  too_large_response = Some error →
  ∀ st, size (body_buffer st) ≤ MAX_REQUEST_SIZE →
  MAX_REQUEST_SIZE < size (body_buffer st +:+ concat_chunks chunks) →
  ∃ k st', deliver handler r st chunks = Some st' ∧
           handled st' = handled st ∧ disk st' = disk st ∧
           written st' = written st ++ replicate (S k) error.
Proof.
  intros Herror. induction chunks as [|chunk chunks IH]; intros st Hfits Hsize.
  - simpl in Hsize. rewrite app_empty_r in Hsize. lia.
  - destruct (decide (MAX_REQUEST_SIZE < size (body_buffer st +:+ chunk))) as [Hover|Hunder].
    + exists (length chunks). destruct chunks as [|chunk' chunks].
      * simpl deliver. rewrite (on_data_too_large _ _ _ _ error) by done. eauto.
      * rewrite deliver_cons, (on_data_too_large _ _ _ _ error) by done.
        rewrite bind_some. cbv beta. rewrite (deliver_rejected _ error) by done.
        eexists. split; [done|]. simpl. by rewrite <- app_assoc.
    + apply N.nlt_ge in Hunder. destruct chunks as [|chunk' chunks].
      * simpl in Hsize. rewrite app_empty_r in Hsize. lia.
      * rewrite deliver_cons, on_data_accumulate by done. rewrite bind_some. cbv beta.
        apply (IH {| body_buffer := body_buffer st +:+ chunk; written := written st;
                     handled := handled st; disk := disk st |}); [done|].
        simpl body_buffer. by rewrite app_assoc_string.
Qed.

(** C7. Whatever the chunks of a request are, if the body they carry is
    longer than 1 MiB then the callbacks write the 413 response, whose body is
    the serialization of the object with the one member "error": "Request
    body too large", they write nothing else, and they never call the
    [ApiHandler]: no request body is parsed and the store is not touched. *)
Theorem oversized_body_rejected r fs chunks error :
  too_large_response = Some error →
  MAX_REQUEST_SIZE < size (concat_chunks chunks) →
  ∃ st, deliver handler r (new_request fs) chunks = Some st ∧
        handled st = [] ∧ disk st = fs ∧
        written st ≠ [] ∧ Forall (λ w, w = error) (written st) ∧
        status_line error = "413 Payload Too Large" ∧
        dump (JObject [("error", JString "Request body too large")])
        = Some (body error).
Proof.
  intros Herror Hsize.
  destruct (deliver_oversized r error chunks Herror (new_request fs))
    as (k & st & Hdeliver & Hhandled & Hdisk & Hwritten); [done | done |].
  destruct (too_large_response_inv error Herror) as (Hstatus & _ & Hbody).
  exists st. rewrite Hwritten. repeat split; try done.
  simpl. constructor; [done|]. apply Forall_forall. by intros w [-> _]%elem_of_replicate.
Qed.

(** C8, as amended. Once the accumulated size has exceeded 1 MiB, no later
    chunk and no end-of-body signal reaches the [ApiHandler], and the store
    is not touched; the callbacks keep no record of the rejection, and each
    later chunk that is delivered is appended to the buffer and answered with
    the 413 response again. *)
Theorem rejected_request_stays_rejected r st error :
  too_large_response = Some error →
  MAX_REQUEST_SIZE < size (body_buffer st) →
  (∀ chunk is_last,
     on_data handler r st chunk is_last =
       Some {| body_buffer := body_buffer st +:+ chunk;
               written := written st ++ [error];
               handled := handled st; disk := disk st |}) ∧
  (∀ chunks,
     deliver handler r st chunks =
       Some {| body_buffer := body_buffer st +:+ concat_chunks chunks;
               written := written st ++ replicate (length chunks) error;
               handled := handled st; disk := disk st |}).
Proof.
  intros Herror Hsize. split.
  - intros chunk is_last. apply on_data_too_large; [done|]. rewrite size_app. lia.
  - intros chunks. by apply deliver_rejected.
Qed.

End DataServerFacts.

Lemma oversized_body_rejected_witness :
  MAX_REQUEST_SIZE < size (concat_chunks [mebibyte_chunk; "b"]) ∧
  ∃ error st,
    too_large_response (F := Empty_set) = Some error ∧
    deliver example_handler api_put (new_request example_fs) [mebibyte_chunk; "b"]
    = Some st ∧
    handled st = [] ∧ written st ≠ [] ∧ Forall (λ w, w = error) (written st).
Proof.
  assert (MAX_REQUEST_SIZE < size (concat_chunks [mebibyte_chunk; "b"])) as Hsize
    by (by vm_compute).
  split; [exact Hsize|].
  assert (∃ error, too_large_response (F := Empty_set) = Some error) as [error Herror]
    by (eexists; by vm_compute).
  destruct (oversized_body_rejected example_handler api_put example_fs
              [mebibyte_chunk; "b"] error Herror Hsize)
    as (st & Hdeliver & Hhandled & _ & Hwritten & Hall & _).
  exists error, st. split; [exact Herror|]. split; [exact Hdeliver|].
  split; [exact Hhandled|]. split; [exact Hwritten | exact Hall].
Defined.

(** The claim C8 as it is written fails: after the request is rejected, a
    further chunk is appended to the buffer and the response is written a
    second time. *)
Lemma rejected_request_not_ignored :
  ∃ error st1 st2,
    deliver (F := Empty_set) example_handler api_put (new_request example_fs)
      [mebibyte_chunk; "b"] = Some st1 ∧
    written st1 = [error] ∧ status_line error = "413 Payload Too Large" ∧
    on_data example_handler api_put st1 "c" true = Some st2 ∧
    body_buffer st2 = body_buffer st1 +:+ "c" ∧
    size (body_buffer st2) = size (body_buffer st1) + 1 ∧
    written st2 = [error; error].
Proof.
  assert (∃ error, too_large_response (F := Empty_set) = Some error) as [error Herror]
    by (eexists; by vm_compute).
  assert (size mebibyte_chunk = MAX_REQUEST_SIZE) as Hsize by apply size_fill.
  exists error. eexists. eexists. split.
  { rewrite deliver_cons. change (body_buffer (new_request example_fs)) with "".
    rewrite on_data_accumulate;
      [|simpl body_buffer; rewrite size_app, Hsize; change (size "") with 0; lia].
    rewrite bind_some. cbv beta. simpl deliver.
    apply (on_data_too_large _ _ _ _ _ error Herror).
    simpl body_buffer. rewrite !size_app, Hsize.
    change (size "") with 0. change (size "b") with 1. lia. }
  destruct (too_large_response_inv error Herror) as (Hstatus & _).
  split; [reflexivity|]. split; [exact Hstatus|]. split.
  { apply (on_data_too_large _ _ _ _ _ error Herror).
    simpl body_buffer. rewrite !size_app, Hsize.
    change (size "") with 0. change (size "b") with 1. lia. }
  split; [reflexivity|]. split; [|reflexivity].
  simpl body_buffer. rewrite !size_app. change (size "c") with 1. lia.
Qed.

Lemma rejected_request_stays_rejected_witness :
  ∃ error,
    too_large_response (F := Empty_set) = Some error ∧
    MAX_REQUEST_SIZE < size (body_buffer (rejected_state error)) ∧
    on_data example_handler api_put (rejected_state error) "c" true =
      Some {| body_buffer := body_buffer (rejected_state error) +:+ "c";
              written := [error; error]; handled := []; disk := example_fs |}.
Proof.
  assert (∃ error, too_large_response (F := Empty_set) = Some error) as [error Herror]
    by (eexists; by vm_compute).
  assert (MAX_REQUEST_SIZE < size (body_buffer (rejected_state error))) as Hsize
    by (by vm_compute).
  exists error. split; [exact Herror|]. split; [exact Hsize|].
  apply (rejected_request_stays_rejected example_handler api_put
           (rejected_state error) error Herror Hsize).
Defined.

(** * Further properties of the code *)

(** ** Sanitization and the extension *)

Section SanitizeMore.

Implicit Types (s : string) (c : ascii) (out cs : list ascii).

Lemma rchars_inj s s' : rchars s = rchars s' → s = s'.
Proof. intros H. by rewrite <- (of_rchars s), <- (of_rchars s'), H. Qed.

Lemma chars_rchars s : chars s = rev (rchars s).
Proof. unfold rchars. by rewrite rev_involutive. Qed.

(** On characters that are all valid, the loop keeps everything. *)
Lemma scan_valid out cs :
  Forall (λ c, is_valid_json_character c = true) cs →
  Reference.scan out cs = rev cs ++ out.
Proof.
  intros Hcs. revert out. induction Hcs as [|c cs Hc Hcs IH]; intros out; [done|].
  simpl. assert (c ≠ "/"%char ∧ c ≠ backslash ∧ c ≠ NUL ∧ c ≠ "."%char) as (? & ? & ? & ?).
  { repeat split; intros ->; done. }
  rewrite bool_decide_eq_false_2 by tauto. rewrite bool_decide_eq_false_2 by done.
  unfold is_valid_json_character in Hc. rewrite !ascii_eqb_decide in Hc. rewrite Hc.
  by rewrite IH, <- app_assoc.
Qed.

Lemma strip_fixed out :
  match out with
  | c :: _ => c ≠ "_"%char ∧ c ≠ "-"%char
  | [] => True
  end → Reference.strip out = out.
Proof.
  destruct out as [|c out]; [done|]. intros [? ?]. simpl.
  by rewrite bool_decide_eq_false_2 by tauto.
Qed.

Lemma strip_strip out : Reference.strip (Reference.strip out) = Reference.strip out.
Proof. apply strip_fixed, strip_head. Qed.

(** X1. Sanitizing a sanitized filename changes nothing. *)
Theorem sanitize_filename_idempotent s :
  sanitize_filename (sanitize_filename s) = sanitize_filename s.
Proof.
  apply rchars_inj. rewrite (sanitize_filename_rchars (sanitize_filename s)).
  rewrite scan_valid by apply sanitize_filename_valid.
  rewrite app_nil_r. fold (rchars (sanitize_filename s)).
  rewrite (sanitize_filename_rchars s). apply strip_strip.
Qed.

Lemma filter_rev {A} (P : A → Prop) `{∀ x, Decision (P x)} (l : list A) :
  filter P (rev l) = rev (filter P l).
Proof. rewrite !rev_alt. apply filter_reverse. Qed.

Lemma scan_alnum out cs :
  filter (λ c, isalnum c = true) (Reference.scan out cs)
  = filter (λ c, isalnum c = true) (rev cs) ++ filter (λ c, isalnum c = true) out.
Proof.
  revert out. induction cs as [|c cs IH]; intros out; [done|].
  simpl Reference.scan. simpl rev. rewrite filter_app, <- app_assoc.
  case_bool_decide as Hsep.
  { rewrite IH. f_equal. rewrite filter_cons_False; [done|].
    destruct Hsep as [->|[->| ->]]; done. }
  case_bool_decide as Hdot.
  { subst c. rewrite (filter_cons_False _ "."%char) by done. simpl.
    destruct out as [|last_out out]; [|case_bool_decide];
      rewrite IH; by rewrite ?(filter_cons_False _ "_"%char) by done. }
  destruct (isalnum c) eqn:Halnum; simpl.
  - rewrite IH, !filter_cons_True by done. done.
  - rewrite (filter_cons_False _ c) by congruence. simpl.
    destruct (_ || _) eqn:Hv; rewrite IH; [|done].
    by rewrite filter_cons_False by congruence.
Qed.

Lemma strip_alnum out :
  filter (λ c, isalnum c = true) (Reference.strip out)
  = filter (λ c, isalnum c = true) out.
Proof.
  induction out as [|c out IH]; [done|]. simpl.
  case_bool_decide as Hc; [|done].
  rewrite IH, filter_cons_False; [done|]. by destruct Hc as [->| ->].
Qed.

Lemma length_scan out cs :
  (length (Reference.scan out cs) ≤ length cs + length out)%nat.
Proof.
  revert out. induction cs as [|c cs IH]; intros out; [simpl; lia|].
  simpl. repeat case_match; (etrans; [apply IH|]); simpl; lia.
Qed.

Lemma length_strip out : (length (Reference.strip out) ≤ length out)%nat.
Proof.
  induction out as [|c out IH]; [done|]. simpl. case_bool_decide; simpl; lia.
Qed.

(** X2. Sanitization keeps every letter and digit of the filename, in
    their order, and never makes the name longer. *)
Theorem sanitize_filename_keeps_alnum s :
  alnum_chars (sanitize_filename s) = alnum_chars s ∧
  size (sanitize_filename s) ≤ size s.
Proof.
  split.
  - unfold alnum_chars. rewrite (chars_rchars (sanitize_filename s)), filter_rev.
    rewrite sanitize_filename_rchars, strip_alnum, scan_alnum, app_nil_r.
    by rewrite filter_rev, rev_involutive.
  - unfold size. rewrite <- !length_rchars, sanitize_filename_rchars.
    pose proof (length_strip (Reference.scan [] (chars s))).
    pose proof (length_scan [] (chars s)).
    unfold rchars. rewrite length_rev. simpl in *. lia.
Qed.

(** X3. The name returned by [ensure_json_extension] always ends in
    [.json]; the function changes nothing on such a name, and only on such
    a name. *)
Theorem ensure_json_extension_ends s :
  has_json_extension (ensure_json_extension s) = true ∧
  ensure_json_extension (ensure_json_extension s) = ensure_json_extension s ∧
  (ensure_json_extension s = s ↔ has_json_extension s = true).
Proof.
  assert (has_json_extension (ensure_json_extension s) = true) as Hends.
  { unfold ensure_json_extension. destruct (has_json_extension s) eqn:He; [done|].
    apply has_json_extension_spec. by exists s. }
  split; [done|]. split.
  - unfold ensure_json_extension at 1. by rewrite Hends.
  - unfold ensure_json_extension. destruct (has_json_extension s) eqn:He; [done|].
    split; [|done]. intros Heq. apply (f_equal String.length) in Heq.
    rewrite length_app in Heq. simpl in Heq. lia.
Qed.

End SanitizeMore.

(** ** The store as a whole *)

Section StoreMore.

Context {F : Type} `{!JsonLibrary F}.
Variable this : FileManager.

Implicit Types (fs : filesystem) (key filename : string) (document : json F).
Implicit Types (dir q : list string).

Lemma can_write_not_directory fs q : can_write fs q = true → is_directory_at fs q = false.
Proof.
  unfold can_write, is_directory_at. rewrite !andb_true_iff. intros [_ Hn].
  by destruct (node_at fs q) as [[]|].
Qed.

(** When [put_json] succeeds, and only then. *)
Lemma put_json_value_spec fs key filename document fs' :
  put_json this fs key filename document = (value tt, fs') ↔
  ∃ dir json_string,
    key ≠ "" ∧
    resolve fs (get_key_directory this key) = Some dir ∧
    is_directory_at fs dir = true ∧
    sanitize_filename filename ≠ "" ∧
    dump document = Some json_string ∧
    size json_string ≤ MAX_JSON_SIZE_BYTES ∧
    can_write fs (dir ++ [sanitize_filename filename +:+ ".json"]) = true ∧
    fs' = set_node (dir ++ [sanitize_filename filename +:+ ".json"])
            (RegularFile json_string) fs.
Proof.
  split.
  - unfold put_json. destruct (empty key) eqn:Hkey; [done|].
    destruct (key_directory_exists this fs key) eqn:Hk; [|done].
    apply key_directory_exists_spec in Hk as (dir & Hdir & Hd).
    destruct (empty (sanitize_filename filename)) eqn:Hs; [done|]. simpl.
    destruct (dump document) as [json_string|]; [|done].
    destruct (MAX_JSON_SIZE_BYTES <? size json_string) eqn:Hsize; [done|].
    unfold ofstream_open. rewrite (file_path_resolves this fs key filename dir) by done.
    unfold can_write. set (target := dir ++ [_]).
    case_bool_decide as Hopen; [done|].
    apply empty_false in Hkey, Hs. apply N.ltb_ge in Hsize.
    intros Hput. exists dir, json_string.
    do 6 (split; [done|]).
    destruct (node_at fs target) as [[content| |]|] eqn:Hn; try done;
      unfold ofstream_write in Hput; simpl in Hput;
      case_bool_decide as Hwrite; simplify_eq;
      fold target; rewrite set_node_set_node, Hn;
      (split; [by rewrite !bool_decide_eq_true_2 | done]).
  - intros (dir & json_string & Hkey & Hdir & Hd & Hs & Hdump & Hsize & Hw & ->).
    unfold put_json. apply empty_false in Hkey, Hs. apply N.ltb_ge in Hsize.
    assert (key_directory_exists this fs key = true) as Hk
      by (apply key_directory_exists_spec; eauto).
    rewrite Hkey, Hk, Hs, Hdump, Hsize. simpl.
    unfold ofstream_open, ofstream_write.
    rewrite (file_path_resolves this fs key filename dir) by done.
    unfold can_write in Hw. rewrite !andb_true_iff, !bool_decide_eq_true in Hw.
    destruct Hw as [[Hopen Hwrite] Hn]. rewrite bool_decide_eq_false_2 by done.
    destruct (node_at fs _) as [[content| |]|]; try done; simpl;
      by rewrite bool_decide_eq_false_2, set_node_set_node.
Qed.

(** Whatever [put_json] returns, the file system it leaves is the one it
    received, possibly with the named file created or rewritten. *)
Lemma put_json_cases fs key filename document result fs' :
  put_json this fs key filename document = (result, fs') →
  fs' = fs ∨
  ∃ dir content,
    resolve fs (get_key_directory this key) = Some dir ∧
    is_directory_at fs dir = true ∧
    is_directory_at fs (dir ++ [sanitize_filename filename +:+ ".json"]) = false ∧
    fs' = set_node (dir ++ [sanitize_filename filename +:+ ".json"])
            (RegularFile content) fs.
Proof.
  unfold put_json.
  destruct (empty key); [intros [= _ <-]; by left|].
  destruct (key_directory_exists this fs key) eqn:Hk; [|intros [= _ <-]; by left].
  apply key_directory_exists_spec in Hk as (dir & Hdir & Hd).
  destruct (empty (sanitize_filename filename)); [intros [= _ <-]; by left|]. simpl.
  destruct (dump document) as [json_string|]; [|intros [= _ <-]; by left].
  destruct (MAX_JSON_SIZE_BYTES <? size json_string); [intros [= _ <-]; by left|].
  unfold ofstream_open. rewrite (file_path_resolves this fs key filename dir) by done.
  case_bool_decide; [intros [= _ <-]; by left|].
  set (target := dir ++ [_]).
  destruct (node_at fs target) as [[content| |]|] eqn:Hn;
    [ | intros [= _ <-]; by left | intros [= _ <-]; by left | ];
    (assert (is_directory_at fs target = false) as Hnd
       by (unfold is_directory_at; by rewrite Hn));
    destruct (ofstream_write _ _ _) as [b fs2] eqn:Hw;
    apply ofstream_write_cases in Hw as [-> | ->]; rewrite ?set_node_set_node;
    destruct b; intros [= _ <-]; right; eauto 10.
Qed.

(** X4. [put_json] never creates, removes or replaces a directory, never
    changes what the operating system refuses, and leaves every node other
    than the file it names as it was. *)
Theorem put_json_frame fs key filename document result fs' :
  put_json this fs key filename document = (result, fs') →
  refused fs' = refused fs ∧
  (∀ q, is_directory_at fs' q = is_directory_at fs q) ∧
  (∀ q, resolve fs (get_file_path this key
                      (ensure_json_extension (sanitize_filename filename))) ≠ Some q →
        node_at fs' q = node_at fs q).
Proof.
  intros Hput. destruct (put_json_cases _ _ _ _ _ _ Hput)
    as [->|(dir & content & Hdir & Hd & Hnd & ->)]; [done|].
  pose proof (child_not_root dir (sanitize_filename filename +:+ ".json")).
  split; [done|]. split.
  - intros q. by apply is_directory_at_set_file.
  - intros q. rewrite (file_path_resolves this fs key filename dir) by done.
    intros Hq. rewrite node_at_set_node by done. rewrite decide_False; [done|].
    congruence.
Qed.

(** X5. Writes replace the whole file: after two successful [put_json]
    under the same key and filename the file system is the one that the second
    alone would have left, and repeating a successful [put_json] succeeds and
    changes nothing. *)
Theorem put_json_last_write_wins fs key filename d1 d2 fs1 fs2 :
  put_json this fs key filename d1 = (value tt, fs1) →
  put_json this fs1 key filename d2 = (value tt, fs2) →
  put_json this fs key filename d2 = (value tt, fs2) ∧
  put_json this fs1 key filename d1 = (value tt, fs1).
Proof.
  intros H1 H2.
  apply put_json_value_spec in H1
    as (dir & s1 & Hkey & Hdir & Hd & Hs & Hdump1 & Hsize1 & Hw & ->).
  apply put_json_value_spec in H2
    as (dir' & s2 & _ & Hdir' & _ & _ & Hdump2 & Hsize2 & _ & ->).
  set (target := dir ++ [sanitize_filename filename +:+ ".json"]) in *.
  pose proof (child_not_root dir (sanitize_filename filename +:+ ".json")) as Hroot.
  fold target in Hroot.
  pose proof (can_write_not_directory _ _ Hw) as Hnd.
  assert (∀ q, is_directory_at fs q
               = is_directory_at (set_node target (RegularFile s1) fs) q) as Hsame.
  { intros q. by rewrite is_directory_at_set_file. }
  rewrite <- (resolve_ext fs _ _ Hsame) in Hdir'.
  assert (dir' = dir) as -> by congruence. fold target.
  rewrite set_node_set_node.
  assert (can_write (set_node target (RegularFile s1) fs) target = true) as Hw1.
  { unfold can_write in *. rewrite node_at_set_node, decide_True by done.
    rewrite !andb_true_iff in *. by destruct Hw as [[? ?] _]. }
  split; apply put_json_value_spec; exists dir.
  - exists s2. by rewrite ?set_node_set_node.
  - exists s1. rewrite set_node_set_node.
    rewrite <- (resolve_ext fs _ _ Hsame), <- Hsame. done.
Qed.

Lemma get_json_missing fs key filename dir :
  key ≠ "" → filename ≠ "" →
  resolve fs (get_key_directory this key) = Some dir →
  is_directory_at fs dir = true →
  nodes fs !! (dir ++ [sanitize_filename filename +:+ ".json"]) = None →
  get_json this fs key filename = unexpected FileNotFound.
Proof.
  intros Hkey Hfilename Hdir Hd Hnone. unfold get_json.
  apply empty_false in Hkey, Hfilename.
  assert (key_directory_exists this fs key = true) as Hk
    by (apply key_directory_exists_spec; eauto).
  rewrite Hkey, Hfilename, Hk. simpl. unfold fs_exists.
  rewrite (file_path_resolves this fs key filename dir) by done.
  assert (node_at fs (dir ++ [sanitize_filename filename +:+ ".json"]) = None) as ->
    by (by destruct dir).
  rewrite bool_decide_eq_false_2; [done|]. by intros [? ?].
Qed.

(** X6. Filenames with the same sanitized form name the same document:
    what [put_json] stored under one of them, [get_json] returns under the
    other (the operating system refusing nothing on the file, and the JSON
    library parsing the serialization back). *)
Theorem put_get_same_sanitized_name fs key filename filename' document json_string fs' :
  put_json this fs key filename document = (value tt, fs') →
  sanitize_filename filename' = sanitize_filename filename →
  dump document = Some json_string →
  parse json_string = inr document →
  io_succeeds fs
    (get_file_path this key (ensure_json_extension (sanitize_filename filename))) = true →
  get_json this fs' key filename' = value document.
Proof.
  intros Hput Hsame Hdump Hparse Hio.
  apply put_json_value_spec in Hput
    as (dir & s & Hkey & Hdir & Hd & Hs & Hdump' & Hsize & Hw & ->).
  assert (s = json_string) as -> by congruence.
  pose proof (file_path_resolves this fs key filename dir Hdir Hd) as Hpath.
  destruct (io_succeeds_spec _ _ _ Hpath Hio) as (_ & _ & Hread & Hnd).
  set (target := dir ++ [sanitize_filename filename +:+ ".json"]) in *.
  pose proof (child_not_root dir (sanitize_filename filename +:+ ".json")) as Hroot.
  fold target in Hroot.
  assert (∀ q, is_directory_at fs q
               = is_directory_at (set_node target (RegularFile json_string) fs) q) as Hdirs.
  { intros q. by rewrite is_directory_at_set_file. }
  rewrite (get_json_reads this _ key filename' dir json_string).
  - apply N.ltb_ge in Hsize. by rewrite Hsize, Hparse.
  - done.
  - intros ->. by rewrite <- Hsame in Hs.
  - by rewrite <- (resolve_ext fs _ _ Hdirs).
  - by rewrite <- Hdirs.
  - rewrite Hsame. apply lookup_insert_eq.
  - by rewrite Hsame.
Qed.

(** The sanitized form of a stored name: its dot becomes an underscore. *)
Lemma sanitize_stored_name filename :
  sanitize_filename filename ≠ "" →
  sanitize_filename (sanitize_filename filename +:+ ".json")
  = sanitize_filename filename +:+ "_json".
Proof.
  intros Hs. apply rchars_inj.
  rewrite (sanitize_filename_rchars (_ +:+ ".json")), chars_app.
  assert (∀ out cs cs', Reference.scan out (cs ++ cs')
                        = Reference.scan (Reference.scan out cs) cs') as scan_app.
  { intros out cs. revert out. induction cs as [|c cs IH]; intros out cs'; [done|].
    rewrite <- app_comm_cons, (scan_cons out c (cs ++ cs')), (scan_cons out c cs).
    apply IH. }
  rewrite scan_app, (scan_valid [] (chars (sanitize_filename filename)))
    by apply sanitize_filename_valid.
  rewrite app_nil_r. fold (rchars (sanitize_filename filename)).
  unfold rchars at 2. rewrite chars_app, rev_app_distr.
  fold (rchars (sanitize_filename filename)).
  pose proof (sanitize_filename_valid filename) as Hv.
  rewrite Forall_forall in Hv.
  destruct (rchars (sanitize_filename filename)) as [|c out] eqn:Hr.
  { by apply rchars_nil in Hr. }
  assert (c ≠ "."%char) as Hc.
  { intros ->. assert ("."%char ∈ chars (sanitize_filename filename)) as Hin.
    { apply elem_of_rchars. rewrite Hr. left. }
    by apply Hv in Hin. }
  simpl. by rewrite (bool_decide_eq_false_2 (c = "."%char)).
Qed.

(** X7. The names that [list_files] shows are not the names that
    [get_json] takes: for a document stored under a filename whose sanitized
    form is [s], the listing shows [s.json], and [get_json] with that name
    looks for the file [s_json.json]; it answers [FileNotFound] unless such a
    file is there. *)
Theorem get_json_listed_name fs key filename document fs' dir :
  put_json this fs key filename document = (value tt, fs') →
  resolve fs (get_key_directory this key) = Some dir →
  nodes fs !! (dir ++ [sanitize_filename filename +:+ "_json.json"]) = None →
  sanitize_filename (sanitize_filename filename +:+ ".json")
  = sanitize_filename filename +:+ "_json" ∧
  nodes fs' !! (dir ++ [sanitize_filename filename +:+ ".json"])
  = (RegularFile <$> dump document) ∧
  get_json this fs' key (sanitize_filename filename +:+ ".json")
  = unexpected FileNotFound.
Proof.
  intros Hput Hdir Hnone.
  apply put_json_value_spec in Hput
    as (dir' & s & Hkey & Hdir' & Hd & Hs & Hdump & Hsize & Hw & ->).
  assert (dir' = dir) as -> by congruence.
  pose proof (sanitize_stored_name filename Hs) as Hname.
  split; [done|]. split; [rewrite Hdump; apply lookup_insert_eq|].
  set (target := dir ++ [sanitize_filename filename +:+ ".json"]) in *.
  pose proof (child_not_root dir (sanitize_filename filename +:+ ".json")) as Hroot.
  fold target in Hroot.
  pose proof (can_write_not_directory _ _ Hw) as Hnd.
  assert (∀ q, is_directory_at fs q
               = is_directory_at (set_node target (RegularFile s) fs) q) as Hdirs.
  { intros q. by rewrite is_directory_at_set_file. }
  apply (get_json_missing _ _ _ dir).
  - done.
  - by destruct (sanitize_filename filename).
  - by rewrite <- (resolve_ext fs _ _ Hdirs).
  - by rewrite <- Hdirs.
  - rewrite Hname, app_assoc_string. change ("_json" +:+ ".json") with "_json.json".
    unfold set_node. simpl. rewrite lookup_insert_ne; [done|].
    unfold target. intros Heq%app_inv_head. injection Heq as Heq.
    apply (f_equal String.length) in Heq. rewrite !length_app in Heq.
    simpl in Heq. lia.
Qed.

(** X8. A [put_json] does not change what [get_json] returns for any
    other file. *)
Theorem get_json_other_file fs key filename document result fs' key' filename' :
  put_json this fs key filename document = (result, fs') →
  resolve fs (get_file_path this key' (ensure_json_extension (sanitize_filename filename')))
  ≠ resolve fs (get_file_path this key (ensure_json_extension (sanitize_filename filename))) →
  get_json this fs' key' filename' = get_json this fs key' filename'.
Proof.
  intros Hput Hother.
  destruct (put_json_cases _ _ _ _ _ _ Hput)
    as [->|(dir & content & Hdir & Hd & Hnd & ->)]; [done|].
  rewrite (file_path_resolves this fs key filename dir) in Hother by done.
  set (target := dir ++ [sanitize_filename filename +:+ ".json"]) in *.
  pose proof (child_not_root dir (sanitize_filename filename +:+ ".json")) as Hroot.
  fold target in Hroot.
  assert (∀ q, is_directory_at fs q
               = is_directory_at (set_node target (RegularFile content) fs) q) as Hdirs.
  { intros q. by rewrite is_directory_at_set_file. }
  unfold get_json. rewrite <- (key_directory_exists_ext this fs _ key' Hdirs).
  unfold fs_exists, ifstream_open. rewrite <- !(resolve_ext fs _ _ Hdirs).
  destruct (resolve fs (get_file_path this key' _)) as [q|]; [|done].
  rewrite node_at_set_node, decide_False by congruence. done.
Qed.

(** X9. The errors each operation can return: [put_json] never answers
    [FileNotFound] or [InvalidJson], [get_json] never [JsonEncodingError], and
    [list_files] only [InvalidFilename], [KeyDirectoryNotFound] or [IoError]. *)
Theorem store_error_ranges fs key filename document :
  (∀ error fs', put_json this fs key filename document = (unexpected error, fs') →
                error ∈ put_json_errors) ∧
  (∀ error, get_json (F := F) this fs key filename = unexpected error →
            error ∈ get_json_errors) ∧
  (∀ error, list_files this fs key = unexpected error → error ∈ list_files_errors).
Proof.
  unfold put_json_errors, get_json_errors, list_files_errors. split; [|split].
  - intros error fs'. unfold put_json.
    repeat (case_match; try (intros [= <- _]; set_solver)).
  - intros error. unfold get_json.
    repeat (case_match; try (intros [= <-]; set_solver)).
  - intros error. unfold list_files.
    repeat (case_match; try (intros [= <-]; set_solver)).
Qed.

(** X10. A successful [put_json] adds the name of its file to what
    [list_files] returns, and nothing else: the new listing holds that name
    and the names listed before. *)
Theorem list_files_gains_stored_name fs key filename document fs' files :
  list_files this fs key = value files →
  put_json this fs key filename document = (value tt, fs') →
  ∃ files',
    list_files this fs' key = value files' ∧
    ∀ name, name ∈ files' ↔ name = sanitize_filename filename +:+ ".json" ∨ name ∈ files.
Proof. apply list_files_after_put. Qed.

(** X11. The key is used as it is given: a key that starts with [../]
    names a directory beside the data directory, and the path of a document
    under that key resolves outside the data directory. *)
Theorem key_escapes_data_directory fs other filename :
  split_slash (data_directory_ this) = [data_directory_ this] →
  data_directory_ this ≠ "" → data_directory_ this ≠ "." → data_directory_ this ≠ ".." →
  split_slash other = [other] → other ≠ "" → other ≠ "." → other ≠ ".." →
  is_directory_at fs [data_directory_ this] = true →
  is_directory_at fs [other] = true →
  key_directory_exists this fs ("../" +:+ other) = true ∧
  resolve fs (get_file_path this ("../" +:+ other)
                (ensure_json_extension (sanitize_filename filename)))
  = Some [other; sanitize_filename filename +:+ ".json"].
Proof.
  intros Hdata Hd1 Hd2 Hd3 Hother Ho1 Ho2 Ho3 Hdir Hodir.
  assert (resolve fs (get_key_directory this ("../" +:+ other)) = Some [other]) as Hkey.
  { unfold get_key_directory.
    assert (data_directory_ this +:+ "/" +:+ "../" +:+ other
            = (data_directory_ this +:+ "/" +:+ "..") +:+ "/" +:+ other) as ->.
    { by rewrite !app_assoc_string. }
    apply (resolve_child fs _ other []); try done.
    replace (data_directory_ this +:+ "/" +:+ "..")
      with (data_directory_ this +:+ String "/" "..") by done.
    unfold resolve. destruct (data_directory_ this) as [|c d] eqn:Hdd; [done|].
    simpl empty. rewrite split_slash_app, Hdata. simpl.
    assert (enter [] (String c d) = [String c d]) as ->.
    { unfold enter. rewrite bool_decide_eq_false_2 by tauto.
      by rewrite bool_decide_eq_false_2. }
    by rewrite Hdir. }
  split.
  - apply key_directory_exists_spec. eauto.
  - by rewrite (file_path_resolves this fs _ filename [other]).
Qed.

End StoreMore.

Lemma put_json_frame_witness :
  refused (put_json example_manager example_fs "k" "a" example_document).2
  = refused example_fs.
Proof.
  destruct (put_json_frame example_manager example_fs "k" "a" example_document
              (put_json example_manager example_fs "k" "a" example_document).1
              (put_json example_manager example_fs "k" "a" example_document).2)
    as [Hrefused _]; [by vm_compute | exact Hrefused].
Defined.

Lemma put_json_last_write_wins_witness :
  put_json example_manager example_fs "k" "a" example_document2
  = (value tt,
     (put_json example_manager
        (put_json example_manager example_fs "k" "a" example_document).2
        "k" "a" example_document2).2).
Proof.
  destruct (put_json_last_write_wins example_manager example_fs "k" "a"
              example_document example_document2
              (put_json example_manager example_fs "k" "a" example_document).2
              (put_json example_manager
                 (put_json example_manager example_fs "k" "a" example_document).2
                 "k" "a" example_document2).2)
    as [Hlast _]; [by vm_compute | by vm_compute | exact Hlast].
Defined.

Lemma put_get_same_sanitized_name_witness :
  sanitize_filename "report_v2" = sanitize_filename "report.v2" ∧
  get_json example_manager
    (put_json example_manager example_fs "k" "report.v2" example_document).2
    "k" "report_v2"
  = value example_document.
Proof.
  split; [by vm_compute|].
  apply (put_get_same_sanitized_name example_manager example_fs "k" "report.v2"
           "report_v2" example_document (default "" (dump example_document)));
    by vm_compute.
Defined.

Lemma get_json_listed_name_witness :
  list_files example_manager example_fs_b "k" = value ["b.json"] ∧
  get_json (F := Empty_set) example_manager example_fs_b "k" "b.json"
  = unexpected FileNotFound.
Proof.
  split; [by vm_compute|].
  destruct (get_json_listed_name example_manager example_fs "k" "b" example_document
              example_fs_b ["data"; "k"]) as (_ & _ & Hget);
    [by vm_compute | by vm_compute | by vm_compute | exact Hget].
Defined.

Lemma get_json_other_file_witness :
  get_json (F := Empty_set) example_manager
    (put_json example_manager example_fs_b "k" "a" example_document2).2 "k" "b"
  = get_json example_manager example_fs_b "k" "b".
Proof.
  apply (get_json_other_file example_manager example_fs_b "k" "a" example_document2
           (put_json example_manager example_fs_b "k" "a" example_document2).1);
    by vm_compute.
Defined.

Lemma store_error_ranges_witness :
  KeyDirectoryNotFound ∈ put_json_errors.
Proof.
  destruct (store_error_ranges example_manager example_fs "nosuchkey" "a"
              example_document) as [Hput _].
  apply (Hput KeyDirectoryNotFound example_fs). by vm_compute.
Defined.

Lemma list_files_gains_stored_name_witness :
  ∃ files',
    list_files example_manager
      (put_json example_manager example_fs_b "k" "a" example_document2).2 "k"
    = value files' ∧
    ∀ name, name ∈ files' ↔ name = sanitize_filename "a" +:+ ".json" ∨ name ∈ ["b.json"].
Proof.
  apply (list_files_gains_stored_name example_manager example_fs_b "k" "a"
           example_document2); by vm_compute.
Defined.

Lemma key_escapes_data_directory_witness :
  key_directory_exists example_manager example_fs_sibling "../secrets" = true ∧
  resolve example_fs_sibling
    (get_file_path example_manager "../secrets"
       (ensure_json_extension (sanitize_filename "a")))
  = Some ["secrets"; sanitize_filename "a" +:+ ".json"].
Proof.
  apply (key_escapes_data_directory example_manager example_fs_sibling "secrets" "a");
    by vm_compute.
Defined.

(** ** The handlers and the callbacks as a whole *)

Section HandlersMore.

Context {F : Type} `{!JsonLibrary F}.
Variable this : ApiHandler.

Implicit Types (fs : filesystem) (request_body : string) (request : json F).

Lemma missing_or_not_string_false request k :
  missing_or_not_string request k = inr false →
  ∃ s, index request k = inr (JString s).
Proof.
  unfold missing_or_not_string. destruct (contains request k); [|done]. simpl.
  destruct (index request k) as [|field]; [done|].
  destruct field; try done. eauto.
Qed.

Lemma put_json_unexpected_disk fs key filename (document : json F) error fs' :
  put_json (file_manager_ this) fs key filename document = (unexpected error, fs') →
  error ≠ IoError → fs' = fs.
Proof.
  unfold put_json.
  destruct (empty key); [by intros [= _ <-]|].
  destruct (negb _); [by intros [= _ <-]|].
  destruct (empty (sanitize_filename filename)); [by intros [= _ <-]|]. simpl.
  destruct (dump document) as [json_string|]; [|by intros [= _ <-]].
  destruct (MAX_JSON_SIZE_BYTES <? size json_string); [by intros [= _ <-]|].
  destruct (ofstream_open _ _) as [[file fs1]|]; [|by intros [= _ <-]].
  destruct (ofstream_write _ _ _) as [[] fs2]; [|done].
  by intros [= <- _].
Qed.

Lemma missing_or_not_string_object request k :
  missing_or_not_string request k = inr false →
  ∃ members s, request = JObject members ∧ find_member k members = Some (JString s).
Proof.
  unfold missing_or_not_string.
  destruct request as [| | | | | | |members]; try done. simpl.
  destruct (find_member k members) as [field|] eqn:Hfind; [|done].
  rewrite bool_decide_eq_true_2 by eauto. simpl.
  destruct field; try done. intros _. eauto.
Qed.

(** X12. An [Ok] answer of [handle_put] means that the request parsed as
    an object that has a string member ["key"], a string member
    ["filename"] and a member ["data"], and that [put_json] stored that data
    under that key and filename: the file system returned is the one
    [put_json] left. *)
Theorem handle_put_ok_stored fs request_body :
  status (handle_put this fs request_body).1 = Ok →
  ∃ members key filename document,
    parse request_body = inr (JObject members) ∧
    find_member "key" members = Some (JString key) ∧
    find_member "filename" members = Some (JString filename) ∧
    find_member "data" members = Some document ∧
    put_json (file_manager_ this) fs key filename document
    = (value tt, (handle_put this fs request_body).2).
Proof.
  unfold handle_put, catch_all.
  destruct (parse request_body) as [[]|request]; [done..|].
  destruct (missing_or_not_string request "key") as [[]|[]] eqn:Hkey; [done..|].
  destruct (missing_or_not_string request "filename") as [[]|[]] eqn:Hfilename; [done..|].
  apply missing_or_not_string_object in Hkey as (members & key & -> & Hkey).
  apply missing_or_not_string_object in Hfilename as (? & filename & [= <-] & Hfilename).
  unfold contains.
  destruct (find_member "data" members) as [document|] eqn:Hdata;
    [|by rewrite bool_decide_eq_false_2 by (by intros [? ?])].
  rewrite bool_decide_eq_true_2 by eauto. simpl.
  rewrite Hkey, Hfilename, Hdata. simpl.
  destruct (put_json _ _ _ _ _) as [[[]|error] fs'] eqn:Hput.
  - intros _. by exists members, key, filename, document.
  - by destruct error.
Qed.

(** X13. Whenever [handle_put] answers with a status other than [Ok] and
    [InternalServerError] (that is 400, 404 or 413), the file system is
    unchanged. *)
Theorem handle_put_client_error_leaves_disk fs request_body :
  status (handle_put this fs request_body).1 ≠ Ok →
  status (handle_put this fs request_body).1 ≠ InternalServerError →
  (handle_put this fs request_body).2 = fs.
Proof.
  unfold handle_put, catch_all.
  destruct (parse request_body) as [[]|request]; [done..|].
  destruct (missing_or_not_string request "key") as [[]|[]]; [done..|].
  destruct (missing_or_not_string request "filename") as [[]|[]]; [done..|].
  destruct (contains request "data"); [|done]. simpl.
  destruct (index request "key") as [[]|key_field]; [done..|].
  destruct (get_string key_field) as [[]|key]; [done..|].
  destruct (index request "filename") as [[]|filename_field]; [done..|].
  destruct (get_string filename_field) as [[]|filename]; [done..|].
  destruct (index request "data") as [[]|document]; [done..|].
  destruct (put_json _ _ _ _ _) as [[[]|error] fs'] eqn:Hput; [done|].
  simpl. intros _ Hstatus. eapply put_json_unexpected_disk; [exact Hput|].
  by intros ->.
Qed.

(** X14. An [Ok] answer of [handle_get] carries, under ["data"], the
    document that [get_json] returned for the request's key and filename; an
    [Ok] answer of [handle_list] carries, under ["files"], the names that
    [list_files] returned for the request's key. *)
Theorem handle_get_list_ok_payload fs request_body :
  (status (handle_get this fs request_body) = Ok →
   ∃ request key filename document,
     parse request_body = inr request ∧
     index request "key" = inr (JString key) ∧
     index request "filename" = inr (JString filename) ∧
     get_json (file_manager_ this) fs key filename = value document ∧
     data (handle_get this fs request_body) = Some (JObject [("data", document)])) ∧
  (status (handle_list this fs request_body) = Ok →
   ∃ request key files,
     parse request_body = inr request ∧
     index request "key" = inr (JString key) ∧
     list_files (file_manager_ this) fs key = value files ∧
     data (handle_list this fs request_body)
     = Some (JObject [("files", JArray (JString <$> files))])).
Proof.
  split.
  - unfold handle_get, catch_all.
    destruct (parse request_body) as [[]|request]; [done..|].
    destruct (missing_or_not_string request "key") as [[]|[]] eqn:Hkey; [done..|].
    destruct (missing_or_not_string request "filename") as [[]|[]] eqn:Hfilename;
      [done..|].
    apply missing_or_not_string_false in Hkey as [key Hkey].
    apply missing_or_not_string_false in Hfilename as [filename Hfilename].
    rewrite Hkey, Hfilename. simpl.
    destruct (get_json _ _ _ _) as [document|error] eqn:Hget.
    + intros _. by exists request, key, filename, document.
    + by destruct error.
  - unfold handle_list, catch_all.
    destruct (parse request_body) as [[]|request]; [done..|].
    destruct (missing_or_not_string request "key") as [[]|[]] eqn:Hkey; [done..|].
    apply missing_or_not_string_false in Hkey as [key Hkey].
    rewrite Hkey. simpl.
    destruct (list_files _ _ _) as [files|error] eqn:Hlist.
    + intros _. by exists request, key, files.
    + by destruct error.
Qed.

(** The callback looks at the state only through the buffer it extends. *)
Lemma on_data_assoc r st chunk chunk' is_last :
  on_data this r
    {| body_buffer := body_buffer st +:+ chunk; written := written st;
       handled := handled st; disk := disk st |} chunk' is_last
  = on_data this r st (chunk +:+ chunk') is_last.
Proof. unfold on_data. simpl. by rewrite app_assoc_string. Qed.

Lemma size_prefix_le (s t : string) : size s ≤ size (s +:+ t).
Proof. rewrite size_app. lia. Qed.

Lemma deliver_whole r chunks :
  chunks ≠ [] →
  ∀ st, size (body_buffer st +:+ concat_chunks chunks) ≤ MAX_REQUEST_SIZE →
  deliver this r st chunks = on_data this r st (concat_chunks chunks) true.
Proof.
  induction chunks as [|chunk chunks IH]; [done|]. intros _ st Hsize.
  destruct chunks as [|chunk' chunks].
  - simpl. by rewrite app_empty_r.
  - rewrite deliver_cons. simpl concat_chunks in *.
    rewrite on_data_accumulate.
    + rewrite bind_some. cbv beta. rewrite IH; [apply on_data_assoc | done |].
      simpl body_buffer. by rewrite app_assoc_string.
    + etrans; [|exact Hsize]. rewrite <- app_assoc_string. apply size_prefix_le.
Qed.

(** X15. For a body of at most 1 MiB the chunking is invisible: delivering
    the chunks has the effect of delivering the whole body at once. The
    handler is then called once, with the whole body, the file system is the
    one the handler leaves, and one response is written. *)
Theorem deliver_within_limit r fs chunks :
  chunks ≠ [] →
  size (concat_chunks chunks) ≤ MAX_REQUEST_SIZE →
  deliver this r (new_request fs) chunks
  = on_data this r (new_request fs) (concat_chunks chunks) true ∧
  ∀ st, deliver this r (new_request fs) chunks = Some st →
        body_buffer st = concat_chunks chunks ∧
        handled st = [concat_chunks chunks] ∧
        disk st = (handle this r fs (concat_chunks chunks)).2 ∧
        ∃ reply, send_response (handle this r fs (concat_chunks chunks)).1 = Some reply ∧
                 written st = [reply].
Proof.
  intros Hne Hsize.
  assert (deliver this r (new_request fs) chunks
          = on_data this r (new_request fs) (concat_chunks chunks) true) as Hwhole
    by (by apply deliver_whole).
  split; [done|]. rewrite Hwhole. unfold on_data.
  change (body_buffer (new_request fs) +:+ concat_chunks chunks)
    with (concat_chunks chunks). simpl.
  apply N.ltb_ge in Hsize. rewrite Hsize.
  destruct (handle this r fs (concat_chunks chunks)) as [result fs'].
  destruct (send_response result) as [reply|] eqn:Hsend; [|done]. simpl.
  intros st [= <-]. simpl. do 3 (split; [done|]). by exists reply.
Qed.

(** X16. A request that parses to anything but an object with a string
    under ["key"] (an array, a number, [null], an object without ["key"], a
    key that is not a string) is answered by the three handlers with 400
    "Missing or invalid 'key' field", and the file system is left alone. *)
Theorem handlers_reject_missing_key fs request_body request :
  parse request_body = inr request →
  (∀ members s, request = JObject members →
                find_member "key" members ≠ Some (JString s)) →
  handle_put this fs request_body
  = (api_result BadRequest "Missing or invalid 'key' field" None, fs) ∧
  handle_get this fs request_body
  = api_result BadRequest "Missing or invalid 'key' field" None ∧
  handle_list this fs request_body
  = api_result BadRequest "Missing or invalid 'key' field" None.
Proof.
  intros Hparse Hkey.
  assert (missing_or_not_string request "key" = inr true) as Hbad.
  { unfold missing_or_not_string. destruct request as [| | | | | | |members]; try done.
    simpl. destruct (find_member "key" members) as [field|] eqn:Hfind; [|done].
    rewrite bool_decide_eq_true_2 by eauto. simpl.
    destruct field; try done. by destruct (Hkey members s). }
  unfold handle_put, handle_get, handle_list. by rewrite Hparse, Hbad.
Qed.

End HandlersMore.

Lemma handle_put_ok_stored_witness :
  status (handle_put example_handler example_fs (example_body "k" "a" "[1]")).1 = Ok ∧
  ∃ members key filename document,
    parse (example_body "k" "a" "[1]") = inr (JObject members) ∧
    find_member "key" members = Some (JString key) ∧
    find_member "filename" members = Some (JString filename) ∧
    find_member "data" members = Some document ∧
    put_json (F := Empty_set) example_manager example_fs key filename document
    = (value tt, (handle_put example_handler example_fs (example_body "k" "a" "[1]")).2).
Proof.
  split; [by vm_compute|].
  apply (handle_put_ok_stored (F := Empty_set) example_handler example_fs
           (example_body "k" "a" "[1]")).
  by vm_compute.
Defined.

Lemma handle_put_client_error_leaves_disk_witness :
  status (handle_put (F := Empty_set) example_handler example_fs
            (example_body "nosuchkey" "a" "[1]")).1 = NotFound ∧
  (handle_put (F := Empty_set) example_handler example_fs
     (example_body "nosuchkey" "a" "[1]")).2 = example_fs.
Proof.
  split; [by vm_compute|].
  apply (handle_put_client_error_leaves_disk (F := Empty_set) example_handler
           example_fs (example_body "nosuchkey" "a" "[1]")); by vm_compute.
Defined.

Lemma handle_get_list_ok_payload_witness :
  status (handle_list (F := Empty_set) example_handler example_fs_b
            (example_body "k" "b" "0")) = Ok ∧
  ∃ request key files,
    parse (example_body "k" "b" "0") = inr request ∧
    index request "key" = inr (JString key) ∧
    list_files example_manager example_fs_b key = value files ∧
    data (handle_list (F := Empty_set) example_handler example_fs_b
            (example_body "k" "b" "0"))
    = Some (JObject [("files", JArray (JString <$> files))]).
Proof.
  split; [by vm_compute|].
  destruct (handle_get_list_ok_payload (F := Empty_set) example_handler example_fs_b
              (example_body "k" "b" "0")) as [_ Hlist].
  apply Hlist. by vm_compute.
Defined.

Lemma deliver_within_limit_witness :
  size (concat_chunks ["[1,"; "2]"]) ≤ MAX_REQUEST_SIZE ∧
  deliver (F := Empty_set) example_handler api_list (new_request example_fs) ["[1,"; "2]"]
  = on_data example_handler api_list (new_request example_fs)
      (concat_chunks ["[1,"; "2]"]) true.
Proof.
  split; [by vm_compute|].
  destruct (deliver_within_limit (F := Empty_set) example_handler api_list example_fs
              ["[1,"; "2]"]) as [Hwhole _]; [done | by vm_compute | exact Hwhole].
Defined.

Lemma handlers_reject_missing_key_witness :
  parse "[1]" = inr (JArray [JUnsigned 1]) ∧
  handle_list example_handler example_fs "[1]"
  = api_result (F := Empty_set) BadRequest "Missing or invalid 'key' field" None.
Proof.
  split; [by vm_compute|].
  destruct (handlers_reject_missing_key (F := Empty_set) example_handler example_fs
              "[1]" (JArray [JUnsigned 1])) as (_ & _ & Hlist);
    [by vm_compute | done | exact Hlist].
Defined.
